(** * captioning/vllm_caption.py: the two-stage captioning pipeline

    A shallow embedding of [src/captioning/vllm_caption.py] and the
    properties of its conversation formatters, its result writer and its
    stage scheduler [main].

    Python [str] values are modelled by [string]; one [ascii] stands for
    one character of the text.  Python lists are [list]s, the dictionaries
    with a fixed set of keys built by [collate_fn] and by [main] are
    records, and [None] for an optional argument is [None : option _].
    Calls that leave the file (the inference engines, the data set, the
    garbage collector) are answered by a [World]. *)

From Stdlib Require Import List String Ascii ZArith Lia Bool Arith.
From Stdlib Require DecimalString.
Import ListNotations.

Set Implicit Arguments.

Local Open Scope string_scope.
Local Open Scope list_scope.

(** ** Exceptions and results *)

Inductive exn : Type :=
| ValueError
| IndexError
| KeyError
| Failure (what : string).

Inductive result (A : Type) : Type :=
| Ok (a : A)
| Raise (e : exn).

Arguments Ok {A} a.
Arguments Raise {A} e.

Definition is_ok {A} (r : result A) : bool :=
  match r with Ok _ => true | Raise _ => false end.

Definition rbind {A B} (r : result A) (f : A -> result B) : result B :=
  match r with
  | Ok a => f a
  | Raise e => Raise e
  end.

(** A list comprehension whose element expression may raise: the first
    exception stops it. *)
Fixpoint rmap {A B} (f : A -> result B) (l : list A) : result (list B) :=
  match l with
  | [] => Ok []
  | a :: l' =>
      rbind (f a) (fun b => rbind (rmap f l') (fun bs => Ok (b :: bs)))
  end.

(** ** Characters and strings *)

(** The line feed written ["\n"] in the source. *)
Definition nl : ascii := "010"%char.

(** The quotation mark. *)
Definition dquote : ascii := "034"%char.

Definition NL : string := String nl EmptyString.
Definition DQ : string := String dquote EmptyString.

(** [len(s)] as a Python integer. *)
Definition len (s : string) : Z := Z.of_nat (String.length s).

(** One bound of a slice with step 1, adjusted the way CPython's
    [PySlice_AdjustIndices] does it: a negative bound counts from the
    end, and every bound is clamped into [0 .. length]. *)
Definition adjust_index (length i : Z) : Z :=
  if (i <? 0)%Z then
    let i := (i + length)%Z in
    if (i <? 0)%Z then 0%Z else i
  else if (i >=? length)%Z then length
  else i.

(** [s[start:stop]]: never raises, whatever the bounds. *)
Definition slice (s : string) (start stop : Z) : string :=
  let length := len s in
  let start := adjust_index length start in
  let stop := adjust_index length stop in
  if (start <? stop)%Z
  then String.substring (Z.to_nat start) (Z.to_nat (stop - start)) s
  else EmptyString.





(** ** [str.format] with positional arguments

    [prompt.format(summary, 20)] is the one place where a text chosen by
    the user is interpreted.  The model follows CPython's
    [MarkupIterator_next], [parse_field], [field_name_split] and
    [get_integer] for templates whose replacement fields are [{}] or
    [{name}]: brace escapes, automatic and manual numbering, positional
    look-up.  A field with an attribute, an index, a conversion or a
    format spec ([.], [[], [!], [:]) or with a character outside ASCII
    is outside the model: [py_format] answers [None] there. *)

Inductive fmt_arg : Type :=
| ArgStr (s : string)
| ArgInt (z : Z).

(** [format(value, "")] of a positional argument. *)
Definition render (a : fmt_arg) : string :=
  match a with
  | ArgStr s => s
  | ArgInt z => DecimalString.NilZero.string_of_int (Z.to_int z)
  end.

Inductive numbering : Type := ANS_INIT | ANS_AUTO | ANS_MANUAL.

Definition PY_SSIZE_T_MAX : Z := (2 ^ 63 - 1)%Z.

Definition digit_value (c : ascii) : option Z :=
  let n := nat_of_ascii c in
  if ((48 <=? n)%nat && (n <=? 57)%nat)%bool then Some (Z.of_nat (n - 48)) else None.

(** [get_integer]: [None] when a character is not a decimal digit,
    [Some (Raise ValueError)] on overflow. *)
Fixpoint get_integer (s : string) (accumulator : Z) : option (result Z) :=
  match s with
  | EmptyString => Some (Ok accumulator)
  | String c s' =>
      match digit_value c with
      | None => None
      | Some digitval =>
          if (accumulator >? (PY_SSIZE_T_MAX - digitval) / 10)%Z
          then Some (Raise ValueError)
          else get_integer s' (accumulator * 10 + digitval)%Z
      end
  end.

(** The positional argument a field name selects, with the numbering
    state after it.  No keyword arguments are passed, so a name that is
    not a number raises [KeyError]. *)
Definition get_field_object (args : list fmt_arg) (name : string)
    (an_state : numbering) (an_field_number : nat)
  : result (fmt_arg * numbering * nat) :=
  match name with
  | EmptyString =>
      match an_state with
      | ANS_MANUAL => Raise ValueError
      | _ =>
          match nth_error args an_field_number with
          | Some obj => Ok (obj, ANS_AUTO, S an_field_number)
          | None => Raise IndexError
          end
      end
  | _ =>
      match get_integer name 0 with
      | None => Raise KeyError
      | Some (Raise e) => Raise e
      | Some (Ok index) =>
          match an_state with
          | ANS_AUTO => Raise ValueError
          | _ =>
              match nth_error args (Z.to_nat index) with
              | Some obj => Ok (obj, ANS_MANUAL, an_field_number)
              | None => Raise IndexError
              end
          end
      end
  end.

Inductive scan_mode : Type :=
| InText
| InField (name : string).

Definition outside_model (c : ascii) : bool :=
  Ascii.eqb c "." || Ascii.eqb c "[" || Ascii.eqb c "!" || Ascii.eqb c ":"
  || (128 <=? nat_of_ascii c)%nat.

Fixpoint format_loop (args : list fmt_arg) (s : string) (mode : scan_mode)
    (an_state : numbering) (an_field_number : nat) (out : string)
  : option (result string) :=
  match s with
  | EmptyString =>
      match mode with
      | InText => Some (Ok out)
      | InField _ => Some (Raise ValueError)
      end
  | String c rest =>
      match mode with
      | InText =>
          if Ascii.eqb c "{" then
            match rest with
            | EmptyString => Some (Raise ValueError)
            | String c2 rest2 =>
                if Ascii.eqb c2 "{"
                then format_loop args rest2 InText an_state an_field_number
                       (out ++ "{")
                else format_loop args rest (InField EmptyString) an_state
                       an_field_number out
            end
          else if Ascii.eqb c "}" then
            match rest with
            | EmptyString => Some (Raise ValueError)
            | String c2 rest2 =>
                if Ascii.eqb c2 "}"
                then format_loop args rest2 InText an_state an_field_number
                       (out ++ "}")
                else Some (Raise ValueError)
            end
          else format_loop args rest InText an_state an_field_number
                 (out ++ String c EmptyString)
      | InField name =>
          if Ascii.eqb c "{" then Some (Raise ValueError)
          else if Ascii.eqb c "}" then
            match get_field_object args name an_state an_field_number with
            | Raise e => Some (Raise e)
            | Ok (obj, an_state', an_field_number') =>
                format_loop args rest InText an_state' an_field_number'
                  (out ++ render obj)
            end
          else if outside_model c then None
          else format_loop args rest (InField (name ++ String c EmptyString))
                 an_state an_field_number out
      end
  end.

Definition py_format (template : string) (args : list fmt_arg)
  : option (result string) :=
  format_loop args template InText ANS_INIT 0 EmptyString.

(** ** Stage-2 text cleanup: [text[1 : -1]] (line 241) *)

Definition strip_quotes (text : string) : string := slice text 1 (-1).

(** ** Prompt texts (lines 19-40), each after [.strip()] *)

Definition SYSTEM_PROMPT : string :=
  "You are part of a team of people that create videos using generative "
  ++ "models. You use a video-generation model that can generate a "
  ++ "video about anything you describe."
  ++ NL
  ++ "For example, if you respond with "
  ++ DQ
  ++ "A beautiful morning in the woods with the sun peaking through "
  ++ "the trees"
  ++ DQ
  ++ ", the video generation model will create a video of exactly "
  ++ "as described. You task is to summarize the descriptions of videos "
  ++ "provided to by users, and create details prompts to feed into "
  ++ "the generative model."
  ++ NL
  ++ "There are a few rules to follow:"
  ++ NL
  ++ "- You will only ever output a single video description per request."
  ++ NL
  ++ "- If the user mentions to summarize the prompt in [X] words, "
  ++ "make sure to not exceed the limit."
  ++ NL
  ++ "You responses should just be the video generation prompt. Here "
  ++ "are examples:"
  ++ NL
  ++ "- "
  ++ DQ
  ++ "A detailed wooden toy ship with intricately carved masts and "
  ++ "sails is seen gliding smoothly over a plush, blue carpet that "
  ++ "mimics the waves of the sea. The ship's hull is painted a rich "
  ++ "brown, with tiny windows. The carpet, soft and textured, provides "
  ++ "a perfect backdrop, resembling an oceanic expanse. Surrounding "
  ++ "the ship are various other toys and children's items, hinting "
  ++ "at a playful environment. The scene captures the innocence and "
  ++ "imagination of childhood, with the toy ship's journey symbolizing "
  ++ "endless adventures in a whimsical, indoor setting."
  ++ DQ
  ++ NL
  ++ "- "
  ++ DQ
  ++ "A street artist, clad in a worn-out denim jacket and a colorful "
  ++ "bandana, stands before a vast concrete wall in the heart, holding "
  ++ "a can of spray paint, spray-painting a colorful bird on a mottled "
  ++ "wall"
  ++ DQ.

Definition SUMMARY_USER_PROMPT : string :=
  "Please summarize this video and limit the summary to 100-200 "
  ++ "words.".

Definition PROMPT_GEN_USER_PROMPT : string :=
  "Could you generate a prompt for a video generation model given "
  ++ "the following summary:"
  ++ NL
  ++ NL
  ++ "```"
  ++ NL
  ++ "{0}"
  ++ NL
  ++ "```"
  ++ NL
  ++ NL
  ++ "Please limit the prompt to [{1}] words.".

(** ** Data model *)

(** One item of the data set: [{"video": frames, "filename": name}],
    the frames being base64 texts. *)
Record Sample : Type := {
  video : list string;
  filename : string
}.

(** What [collate_fn] builds: [{"videos": ..., "filename": ...}]. *)
Record Batch : Type := {
  videos : list (list string);
  batch_filename : list string
}.

(** [video_data_item] of [main]: [{"filename": ..., "summary": ...}]. *)
Record VideoData : Type := {
  item_filename : list string;
  summary : list string
}.

(** A content block of a chat message. *)
Inductive block : Type :=
| Text (text : string)          (* {"type": "text", "text": text} *)
| ImageUrl (url : string).      (* {"type": "image_url", "image_url": {"url": url}} *)

Inductive role : Type := system | user.

Record message : Type := {
  msg_role : role;
  content : list block
}.

Definition conversation : Type := list message.

(** What an engine answers for one conversation: [RequestOutput] with
    its [outputs], each holding a [text]. *)
Record CompletionOutput : Type := { text : string }.
Record RequestOutput : Type := { outputs : list CompletionOutput }.

(** An engine handle and its sampling parameters. *)
Record engine : Type := {
  model : string;
  tensor_parallel_size : Z;
  limit_mm_per_prompt : option Z;
  engine_download_dir : option string;
  engine_trust_remote_code : bool
}.

Record SamplingParams : Type := { max_tokens : Z }.

(** An item of the output queue: [(video_filenames, outputs)]. *)
Definition payload : Type := (list string * list string)%type.

(** The two output files of [output_dir]. *)
Record Files : Type := {
  videos_txt : string;
  captions_txt : string
}.

(** ** The outside world

    Every call that leaves the file is answered here; each may raise.
    [VideoDataset] is the data set of [dataset.py], taken as the
    sequence of its items, each of which may fail to be read.
    [LLM e] is the load of an engine.  [chat e params idx convs] is the
    answer to the [idx]-th call [e.chat(convs, params)] of a stage.
    [other_format] is [str.format] on the templates that [py_format]
    does not model. *)
Record World : Type := {
  VideoDataset : result (list (result Sample));
  LLM : engine -> result unit;
  chat : engine -> SamplingParams -> nat -> list conversation
         -> result (list RequestOutput);
  makedirs : result unit;
  gc_collect : result unit;
  empty_cache : result unit;
  other_format : string -> list fmt_arg -> result string
}.

(** [template.format( *args )] in a world. *)
Definition format (w : World) (template : string) (args : list fmt_arg)
  : result string :=
  match py_format template args with
  | Some r => r
  | None => other_format w template args
  end.

(** ** Conversation formatters (lines 64-107) *)

Definition create_video_summary_conversations (batch : Batch)
    (prompt : option string) : list conversation :=
  let prompt :=
    match prompt with None => SUMMARY_USER_PROMPT | Some p => p end in
  fold_left
    (fun conversations video =>
       let conversation := [] in
       let content := [] in
       let content := content ++ [Text prompt] in
       let content :=
         fold_left
           (fun content frame =>
              let new_image := ImageUrl ("data:image/jpeg;base64," ++ frame) in
              content ++ [new_image])
           video content in
       let conversation :=
         conversation ++ [{| msg_role := user; content := content |}] in
       conversations ++ [conversation])
    (videos batch) [].

(** The loop body of [create_prompt_generation_conversations] for one
    summary, once the template is formatted. *)
Definition prompt_generation_conversation (formatted : string)
  : conversation :=
  let conversation := [] in
  let content := [] in
  let content := content ++ [Text formatted] in
  let conversation :=
    conversation
    ++ [{| msg_role := system; content := [Text SYSTEM_PROMPT] |}] in
  let conversation :=
    conversation ++ [{| msg_role := user; content := content |}] in
  conversation.

Fixpoint prompt_generation_loop (w : World) (prompt : string)
    (summaries : list string) (conversations : list conversation)
  : result (list conversation) :=
  match summaries with
  | [] => Ok conversations
  | summary :: rest =>
      rbind (format w prompt [ArgStr summary; ArgInt 20])
        (fun formatted =>
           prompt_generation_loop w prompt rest
             (conversations ++ [prompt_generation_conversation formatted]))
  end.

Definition create_prompt_generation_conversations (w : World)
    (batch : VideoData) (prompt : option string)
  : result (list conversation) :=
  let prompt :=
    match prompt with None => PROMPT_GEN_USER_PROMPT | Some p => p end in
  prompt_generation_loop w prompt (summary batch) [].

(** ** Batching (lines 110-132) *)

Definition collate_fn (batch : list Sample) : Batch :=
  {| videos := map video batch;
     batch_filename := map filename batch |}.

(** The batch sampler of the [DataLoader] ([drop_last] left at [False],
    no shuffling): it fills a batch item by item, hands it over when it
    holds [batch_size] items, and hands over a short last one. *)
Fixpoint batch_sampler {A} (batch_size : nat) (sampler : list A)
    (batch : list A) : list (list A) :=
  match sampler with
  | [] => if (0 <? List.length batch)%nat then [batch] else []
  | idx :: rest =>
      let batch := batch ++ [idx] in
      if (List.length batch =? batch_size)%nat
      then batch :: batch_sampler batch_size rest []
      else batch_sampler batch_size rest batch
  end.

(** Arguments of [main] (lines 171-186). *)
Record Config : Type := {
  root_dir : string;
  output_dir : string;
  num_devices : Z;
  max_num_frames : Z;
  max_summary_tokens : Z;
  max_prompt_gen_tokens : Z;
  video_summary_prompt : option string;
  prompt_gen_prompt : option string;
  num_data_workers : Z;
  batch_size : Z;
  num_artifact_workers : Z;
  download_dir : option string;
  trust_remote_code : bool
}.

(** One batch of the loader: its samples are read, then collated; a
    sample that cannot be read makes the iteration raise there. *)
Definition fetch (chunk : list (result Sample)) : result Batch :=
  rbind (rmap (fun sample => sample) chunk)
    (fun samples => Ok (collate_fn samples)).

(** [prepare_dataloader]: the batches the loader will yield, in order.
    The [DataLoader] refuses a batch size below 1 and, with
    [persistent_workers=True], a worker count below 1. *)
Definition prepare_dataloader (w : World) (num_data_workers batch_size : Z)
  : result (list (result Batch)) :=
  rbind (VideoDataset w)
    (fun dataset =>
       if (num_data_workers <=? 0)%Z then Raise ValueError
       else if (batch_size <=? 0)%Z then Raise ValueError
       else Ok (map fetch (batch_sampler (Z.to_nat batch_size) dataset []))).

(** ** The output queue: [queue.Queue(maxsize)]

    [maxsize <= 0] means no bound, which is what [queue.Queue()]
    gives. *)
Record Queue : Type := {
  maxsize : Z;
  items : list (option payload)     (* [None] is the sentinel *)
}.

Definition Queue_new (maxsize : Z) : Queue :=
  {| maxsize := maxsize; items := [] |}.

Definition qsize (q : Queue) : Z := Z.of_nat (List.length (items q)).

Definition full (q : Queue) : bool :=
  ((0 <? maxsize q) && (maxsize q <=? qsize q))%Z.

(** [q.put(item)]: [None] while the queue is full (the caller waits). *)
Definition put (q : Queue) (item : option payload) : option Queue :=
  if full q then None
  else Some {| maxsize := maxsize q; items := items q ++ [item] |}.

(** What a [get] with a timeout gives: an item, or [queue.Empty] once
    the timeout has passed on an empty queue. *)
Inductive get_outcome : Type :=
| Empty
| Got (item : option payload).

(** [q.get(timeout=...)]: the first item; on an empty queue,
    [queue.Empty] once a finite timeout has passed, and nothing at all
    without a timeout (the caller waits until an item comes). *)
Definition get (q : Queue) (timeout : option Z)
  : option (get_outcome * Queue) :=
  match items q with
  | item :: rest =>
      Some (Got item, {| maxsize := maxsize q; items := rest |})
  | [] =>
      match timeout with
      | Some _ => Some (Empty, q)
      | None => None
      end
  end.

(** ** The result writer (lines 43-61) *)

(** The timeout [save_results] passes to [get]: 5 seconds. *)
Definition get_timeout : option Z := Some 5%Z.

(** [open(path, "a")] and one [file.write(line + "\n")] per element. *)
Definition append_lines (file : string) (texts : list string) : string :=
  fold_left (fun file line => (file ++ line ++ NL)%string) texts file.

Definition write_item (fs : Files) (item : payload) : Files :=
  let (video_filenames, outputs) := item in
  let fs :=
    {| videos_txt := append_lines (videos_txt fs) video_filenames;
       captions_txt := captions_txt fs |} in
  {| videos_txt := videos_txt fs;
     captions_txt := append_lines (captions_txt fs) outputs |}.

(** One turn of the [while True] loop, on what [get] gave: the files
    after it, and whether the loop goes on ([false] is the [break]). *)
Definition save_results_body (got : get_outcome) (fs : Files)
  : Files * bool :=
  match got with
  | Empty => (fs, true)
  | Got None => (fs, false)
  | Got (Some item) => (write_item fs item, true)
  end.


(** ** The main thread as a trace of events and an outcome *)

Inductive event : Type :=
| EvLLM (e : engine)                  (* an engine is loaded *)
| EvQueue (maxsize : Z)               (* output_queue = queue.Queue() *)
| EvSubmit                            (* save_thread.submit(save_results, ...) *)
| EvChat (e : engine) (idx : nat) (conversations : list conversation)
| EvDel (e : engine)                  (* del summary_engine, ... *)
| EvGcCollect
| EvEmptyCache
| EvPut (item : option payload)       (* output_queue.put(item) *)
| EvShutdown                          (* save_thread.shutdown(wait=True) *)
| EvResult.                           (* save_future.result() *)

Definition M (A : Type) : Type := (list event * result A)%type.

Definition ret {A} (a : A) : M A := ([], Ok a).

Definition bind {A B} (m : M A) (f : A -> M B) : M B :=
  match m with
  | (t, Ok a) => let (t', r) := f a in (t ++ t', r)
  | (t, Raise e) => (t, Raise e)
  end.

Definition emit (e : event) : M unit := ([e], Ok tt).

Definition lift {A} (r : result A) : M A := ([], r).

(** [try: body finally: fin]: [fin] runs whatever [body] did; an
    exception of [fin] replaces the outcome of [body]. *)
Definition try_finally {A} (body : M A) (fin : M unit) : M A :=
  let (t1, r) := body in
  let (t2, r2) := fin in
  (t1 ++ t2, match r2 with Ok _ => r | Raise e => Raise e end).

Notation "x <- m ;; k" := (bind m (fun x => k))
  (at level 61, m at next level, right associativity).
Notation "m ;;; k" := (bind m (fun _ => k))
  (at level 61, right associativity).

(** ** Engines (lines 135-168) *)

(** The arguments [load_summary_model] passes to [LLM]. *)
Definition summary_engine_of (max_num_frames num_devices : Z)
    (download_dir : option string) (trust_remote_code : bool) : engine :=
  {| model := "openbmb/MiniCPM-V-2_6";
     tensor_parallel_size := num_devices;
     limit_mm_per_prompt := Some max_num_frames;
     engine_download_dir := download_dir;
     engine_trust_remote_code := trust_remote_code |}.

Definition load_summary_model (w : World)
    (max_num_frames max_tokens num_devices : Z)
    (download_dir : option string) (trust_remote_code : bool)
  : M (engine * SamplingParams) :=
  let engine :=
    summary_engine_of max_num_frames num_devices download_dir
      trust_remote_code in
  emit (EvLLM engine) ;;;
  lift (LLM w engine) ;;;
  let sampling_params := {| max_tokens := max_tokens |} in
  ret (engine, sampling_params).

(** The arguments [load_prompt_gen_model] passes to [LLM]. *)
Definition prompt_gen_engine_of (num_devices : Z)
    (download_dir : option string) (trust_remote_code : bool) : engine :=
  {| model := "meta-llama/Meta-Llama-3.1-8B-Instruct";
     tensor_parallel_size := num_devices;
     limit_mm_per_prompt := None;
     engine_download_dir := download_dir;
     engine_trust_remote_code := trust_remote_code |}.

Definition load_prompt_gen_model (w : World) (max_tokens num_devices : Z)
    (download_dir : option string) (trust_remote_code : bool)
  : M (engine * SamplingParams) :=
  let engine :=
    prompt_gen_engine_of num_devices download_dir trust_remote_code in
  emit (EvLLM engine) ;;;
  lift (LLM w engine) ;;;
  let sampling_params := {| max_tokens := max_tokens |} in
  ret (engine, sampling_params).

(** [request.outputs[0].text] *)
Definition first_text (request : RequestOutput) : result string :=
  match nth_error (outputs request) 0 with
  | Some output => Ok (text output)
  | None => Raise IndexError
  end.

(** Stage 1, lines 214-223. *)
Fixpoint summarize_all (w : World) (summary_engine : engine)
    (summary_sampling_params : SamplingParams) (prompt : option string)
    (idx : nat) (dataloader : list (result Batch))
    (video_data : list VideoData) : M (list VideoData) :=
  match dataloader with
  | [] => ret video_data
  | next :: rest =>
      batch <- lift next ;;
      let conversations := create_video_summary_conversations batch prompt in
      emit (EvChat summary_engine idx conversations) ;;;
      video_summaries <-
        lift (chat w summary_engine summary_sampling_params idx conversations) ;;
      summaries <- lift (rmap first_text video_summaries) ;;
      let video_data_item :=
        {| item_filename := batch_filename batch; summary := summaries |} in
      summarize_all w summary_engine summary_sampling_params prompt (S idx)
        rest (video_data ++ [video_data_item])
  end.

(** Stage 2, lines 236-243. *)
Fixpoint generate_all (w : World) (prompt_gen_engine : engine)
    (prompt_gen_sampling_params : SamplingParams) (prompt : option string)
    (idx : nat) (video_data : list VideoData) : M unit :=
  match video_data with
  | [] => ret tt
  | batch :: rest =>
      conversations <-
        lift (create_prompt_generation_conversations w batch prompt) ;;
      emit (EvChat prompt_gen_engine idx conversations) ;;;
      prompts <-
        lift (chat w prompt_gen_engine prompt_gen_sampling_params idx
                conversations) ;;
      prompts <- lift (rmap first_text prompts) ;;
      let prompts := map strip_quotes prompts in
      emit (EvPut (Some (item_filename batch, prompts))) ;;;
      generate_all w prompt_gen_engine prompt_gen_sampling_params prompt
        (S idx) rest
  end.

(** [ThreadPoolExecutor(max_workers=...)] refuses a count below 1. *)
Definition ThreadPoolExecutor (max_workers : Z) : result unit :=
  if (max_workers <=? 0)%Z then Raise ValueError else Ok tt.

Definition main (w : World) (cfg : Config) : M unit :=
  let max_allowed_imgs_per_req := (batch_size cfg * max_num_frames cfg)%Z in
  loaded <-
    load_summary_model w max_allowed_imgs_per_req (max_summary_tokens cfg)
      (num_devices cfg) (download_dir cfg) (trust_remote_code cfg) ;;
  let (summary_engine, summary_sampling_params) := loaded in
  dataloader <-
    lift (prepare_dataloader w (num_data_workers cfg) (batch_size cfg)) ;;
  emit (EvQueue 0) ;;;
  lift (ThreadPoolExecutor (num_artifact_workers cfg)) ;;;
  lift (makedirs w) ;;;
  emit EvSubmit ;;;
  try_finally
    (video_data <-
       summarize_all w summary_engine summary_sampling_params
         (video_summary_prompt cfg) 0 dataloader [] ;;
     emit (EvDel summary_engine) ;;;
     emit EvGcCollect ;;;
     lift (gc_collect w) ;;;
     emit EvEmptyCache ;;;
     lift (empty_cache w) ;;;
     loaded <-
       load_prompt_gen_model w (max_prompt_gen_tokens cfg) (num_devices cfg)
         (download_dir cfg) (trust_remote_code cfg) ;;
     let (prompt_gen_engine, prompt_gen_sampling_params) := loaded in
     generate_all w prompt_gen_engine prompt_gen_sampling_params
       (prompt_gen_prompt cfg) 0 video_data)
    (emit (EvPut None) ;;;
     emit EvShutdown) ;;;
  emit EvResult ;;;
  ret tt.

(** The items the main thread puts on the queue, in order. *)
Fixpoint puts_of (t : list event) : list (option payload) :=
  match t with
  | [] => []
  | EvPut item :: t' => item :: puts_of t'
  | _ :: t' => puts_of t'
  end.

(** The real items among queue items. *)
Fixpoint payloads (l : list (option payload)) : list payload :=
  match l with
  | [] => []
  | Some item :: l' => item :: payloads l'
  | None :: l' => payloads l'
  end.

Definition write_all (fs : Files) (l : list payload) : Files :=
  fold_left write_item l fs.

Definition engine_eq_dec (a b : engine) : {a = b} + {a <> b}.
Proof.
  decide equality;
    try apply Bool.bool_dec; try apply Z.eq_dec;
    try (decide equality; try apply Z.eq_dec; apply string_dec);
    apply string_dec.
Defined.

(** Which engine handles a prefix of the trace leaves bound: a handle
    is live from its load to its [del]. *)
Fixpoint live_engines (t : list event) (live : list engine) : list engine :=
  match t with
  | [] => live
  | EvLLM e :: t' => live_engines t' (live ++ [e])
  | EvDel e :: t' => live_engines t' (remove engine_eq_dec e live)
  | _ :: t' => live_engines t' live
  end.

(** The order in which a run may use the queue and the writer: a queue
    without bound is made, the writer is submitted, real items are put,
    the sentinel is put, the executor is shut down. *)
Inductive phase : Type :=
| NoQueue | NoWriter | Producing | Draining | Joined.

Definition protocol (ph : phase) (e : event) : option phase :=
  match e, ph with
  | EvQueue maxsize, NoQueue =>
      if (maxsize <=? 0)%Z then Some NoWriter else None
  | EvQueue _, _ => None
  | EvSubmit, NoWriter => Some Producing
  | EvSubmit, _ => None
  | EvPut (Some _), Producing => Some Producing
  | EvPut None, Producing => Some Draining
  | EvPut _, _ => None
  | EvShutdown, Draining => Some Joined
  | EvShutdown, _ => None
  | _, _ => Some ph
  end.

Fixpoint conforms (ph : phase) (t : list event) : option phase :=
  match t with
  | [] => Some ph
  | e :: t' =>
      match protocol ph e with
      | Some ph' => conforms ph' t'
      | None => None
      end
  end.

(** ** The main thread and the writer thread together

    The main thread performs its events one by one; the writer thread,
    once submitted, takes turns of its loop.  The two interleave in any
    order.  [shutdown(wait=True)] can only be passed once the writer has
    returned, and a [put] only while the queue is not full. *)

Inductive writer_status : Type := NotStarted | Running | Returned.

Record Sys : Type := {
  main_todo : list event;
  output_queue : option Queue;
  writer : writer_status;
  files : Files
}.

Definition initial (t : list event) (fs : Files) : Sys :=
  {| main_todo := t; output_queue := None; writer := NotStarted;
     files := fs |}.

Definition main_step (s : Sys) : option Sys :=
  match main_todo s with
  | [] => None
  | e :: rest =>
      let s' := {| main_todo := rest; output_queue := output_queue s;
                   writer := writer s; files := files s |} in
      match e with
      | EvQueue maxsize =>
          Some {| main_todo := rest;
                  output_queue := Some (Queue_new maxsize);
                  writer := writer s; files := files s |}
      | EvSubmit =>
          Some {| main_todo := rest; output_queue := output_queue s;
                  writer := Running; files := files s |}
      | EvPut item =>
          match output_queue s with
          | None => None
          | Some q =>
              match put q item with
              | None => None
              | Some q' =>
                  Some {| main_todo := rest; output_queue := Some q';
                          writer := writer s; files := files s |}
              end
          end
      | EvShutdown =>
          match writer s with
          | Running => None
          | _ => Some s'
          end
      | _ => Some s'
      end
  end.

Definition writer_step (s : Sys) : option Sys :=
  match writer s, output_queue s with
  | Running, Some q =>
      match get q get_timeout with
      | None => None
      | Some (got, q') =>
          let (fs, again) := save_results_body got (files s) in
          Some {| main_todo := main_todo s; output_queue := Some q';
                  writer := if again then Running else Returned;
                  files := fs |}
      end
  | _, _ => None
  end.

Definition step (s s' : Sys) : Prop :=
  main_step s = Some s' \/ writer_step s = Some s'.

Inductive reachable (s0 : Sys) : Sys -> Prop :=
| reach_init : reachable s0 s0
| reach_step s s' : reachable s0 s -> step s s' -> reachable s0 s'.

(** One schedule among all: the main thread runs while it can, the
    writer otherwise. *)
Fixpoint run (fuel : nat) (s : Sys) : Sys :=
  match fuel with
  | 0 => s
  | S fuel' =>
      match main_step s with
      | Some s' => run fuel' s'
      | None =>
          match writer_step s with
          | Some s' => run fuel' s'
          | None => s
          end
      end
  end.

(** The schedule in which only the main thread runs. *)
Fixpoint main_only (fuel : nat) (s : Sys) : Sys :=
  match fuel with
  | 0 => s
  | S fuel' =>
      match main_step s with
      | Some s' => main_only fuel' s'
      | None => s
      end
  end.

(** Items waiting in the queue of a state. *)
Definition waiting (s : Sys) : list (option payload) :=
  match output_queue s with
  | Some q => items q
  | None => []
  end.

(** A whole run from given files, under the schedule of [run]. *)
Definition run_pipeline (w : World) (cfg : Config) (fs : Files)
  : Sys * result unit :=
  let (t, r) := main w cfg in
  (run (2 * List.length t + 1) (initial t fs), r).

(** ** Worlds in which nothing fails

    The data set yields [samples]; every engine answers each
    conversation on its own, with one output: [summary_text] for the
    summary engine, [prompt_text] for the other. *)
Definition answer (f : conversation -> string) (c : conversation)
  : RequestOutput :=
  {| outputs := [ {| text := f c |} ] |}.

Definition ideal_world (samples : list Sample)
    (summary_text prompt_text : conversation -> string) : World :=
  {| VideoDataset := Ok (map Ok samples);
     LLM := fun _ => Ok tt;
     chat := fun e _ _ conversations =>
       Ok (map (answer (if String.eqb (model e) "openbmb/MiniCPM-V-2_6"
                        then summary_text else prompt_text))
             conversations);
     makedirs := Ok tt;
     gc_collect := Ok tt;
     empty_cache := Ok tt;
     other_format := fun _ _ => Raise ValueError |}.

(** The defaults of [main], for given directories. *)
Definition default_config (root_dir output_dir : string) : Config :=
  {| root_dir := root_dir;
     output_dir := output_dir;
     num_devices := 1;
     max_num_frames := 8;
     max_summary_tokens := 512;
     max_prompt_gen_tokens := 256;
     video_summary_prompt := None;
     prompt_gen_prompt := None;
     num_data_workers := 4;
     batch_size := 8;
     num_artifact_workers := 4;
     download_dir := None;
     trust_remote_code := false |}.

Definition with_batch_size (cfg : Config) (n : Z) : Config :=
  {| root_dir := root_dir cfg;
     output_dir := output_dir cfg;
     num_devices := num_devices cfg;
     max_num_frames := max_num_frames cfg;
     max_summary_tokens := max_summary_tokens cfg;
     max_prompt_gen_tokens := max_prompt_gen_tokens cfg;
     video_summary_prompt := video_summary_prompt cfg;
     prompt_gen_prompt := prompt_gen_prompt cfg;
     num_data_workers := num_data_workers cfg;
     batch_size := n;
     num_artifact_workers := num_artifact_workers cfg;
     download_dir := download_dir cfg;
     trust_remote_code := trust_remote_code cfg |}.

Definition no_files : Files := {| videos_txt := ""; captions_txt := "" |}.

(** ** What the formatters are expected to build

    These follow the description of the formatters, not their loops:
    the conversation of one sample, as a function of that sample. *)

Definition default_prompt (fallback : string) (prompt : option string)
  : string :=
  match prompt with None => fallback | Some p => p end.

(** Summarization: one user message, the prompt text followed by every
    frame as an inline image; no system message. *)
Definition summary_conversation (prompt : string) (video : list string)
  : conversation :=
  [ {| msg_role := user;
       content :=
         Text prompt
         :: map (fun frame => ImageUrl ("data:image/jpeg;base64," ++ frame))
              video |} ].

(** The default prompt-generation template with a summary and the word
    limit 20 filled in. *)
Definition prompt_gen_text (summary : string) : string :=
  "Could you generate a prompt for a video generation model given "
  ++ "the following summary:"
  ++ NL ++ NL ++ "```" ++ NL
  ++ summary
  ++ NL ++ "```" ++ NL ++ NL
  ++ "Please limit the prompt to [20] words.".

(** Number of inline images of a conversation. *)
Definition is_image (b : block) : bool :=
  match b with ImageUrl _ => true | Text _ => false end.

Definition images_of (c : conversation) : nat :=
  List.length (filter is_image (flat_map content c)).





(** Events that touch neither the queue nor the writer. *)
Definition quiet (e : event) : bool :=
  match e with
  | EvQueue _ | EvSubmit | EvPut _ | EvShutdown => false
  | _ => true
  end.

(** A request to engine [eng]. *)
Definition is_chat_of (eng : engine) (e : event) : Prop :=
  exists idx conversations, e = EvChat eng idx conversations.

(** What stage 2 does: requests to its engine, and real items put on
    the queue. *)
Definition is_stage2 (eng : engine) (e : event) : Prop :=
  is_chat_of eng e \/ exists item, e = EvPut (Some item).

(** The two engines of a run. *)
Definition summary_engine (cfg : Config) : engine :=
  summary_engine_of (batch_size cfg * max_num_frames cfg)%Z (num_devices cfg)
    (download_dir cfg) (trust_remote_code cfg).

Definition prompt_gen_engine (cfg : Config) : engine :=
  prompt_gen_engine_of (num_devices cfg) (download_dir cfg)
    (trust_remote_code cfg).

(** The teardown of stage 1 followed by the load of stage 2. *)
Definition barrier (cfg : Config) : list event :=
  [ EvDel (summary_engine cfg); EvGcCollect; EvEmptyCache;
    EvLLM (prompt_gen_engine cfg) ].

(** The part of a run between the submission of the writer and the
    [finally] block: stage 1, then as much of the barrier as was
    reached, then stage 2 if the barrier was passed. *)
Definition body_shape (cfg : Config) (body : list event) : Prop :=
  exists stage1,
    Forall (is_chat_of (summary_engine cfg)) stage1
    /\ ((exists n, n < 4 /\ body = stage1 ++ firstn n (barrier cfg))
        \/ exists stage2,
             Forall (is_stage2 (prompt_gen_engine cfg)) stage2
             /\ body = stage1 ++ barrier cfg ++ stage2).

(** Events that bind or unbind an engine handle. *)
Definition binds_engine (e : event) : bool :=
  match e with
  | EvLLM _ | EvDel _ => true
  | _ => false
  end.

(** What holds of a state of the two threads in each phase of the main
    thread, [consumed] being the items the writer has taken so far. *)
Definition real (item : option payload) : Prop := item <> None.

Definition phase_ok (ph : phase) (s : Sys)
    (consumed : list (option payload)) : Prop :=
  match ph with
  | NoQueue =>
      output_queue s = None /\ writer s = NotStarted /\ consumed = []
  | NoWriter =>
      (exists q, output_queue s = Some q /\ (maxsize q <= 0)%Z
                 /\ items q = [])
      /\ writer s = NotStarted /\ consumed = []
  | Producing =>
      (exists q, output_queue s = Some q /\ (maxsize q <= 0)%Z)
      /\ writer s = Running
      /\ Forall real consumed /\ Forall real (waiting s)
  | Draining =>
      (exists q, output_queue s = Some q /\ (maxsize q <= 0)%Z)
      /\ ((writer s = Running /\ Forall real consumed
           /\ exists l, waiting s = l ++ [None] /\ Forall real l)
          \/ (writer s = Returned /\ waiting s = []
              /\ exists l, consumed = l ++ [None] /\ Forall real l))
  | Joined =>
      writer s = Returned /\ waiting s = []
      /\ exists l, consumed = l ++ [None] /\ Forall real l
  end.

(** The invariant of a run with trace [t] from files [fs0], [final]
    being the phase in which [t] ends. *)
Definition invariant (t : list event) (fs0 : Files) (final : phase)
    (s : Sys) : Prop :=
  exists ph consumed,
    conforms ph (main_todo s) = Some final
    /\ puts_of t = consumed ++ waiting s ++ puts_of (main_todo s)
    /\ files s = write_all fs0 (payloads consumed)
    /\ phase_ok ph s consumed.

(** ** What a run without failure is expected to produce

    In an [ideal_world], with the default prompt-generation template:
    the summary of a sample, its caption, and the queue item of a batch
    of samples. *)
Definition summary_of (summary_text : conversation -> string)
    (prompt : option string) (sample : Sample) : string :=
  summary_text
    (summary_conversation (default_prompt SUMMARY_USER_PROMPT prompt)
       (video sample)).

Definition caption_of (summary_text prompt_text : conversation -> string)
    (prompt : option string) (sample : Sample) : string :=
  strip_quotes
    (prompt_text
       (prompt_generation_conversation
          (prompt_gen_text (summary_of summary_text prompt sample)))).

Definition video_data_of (summary_text : conversation -> string)
    (prompt : option string) (chunk : list Sample) : VideoData :=
  {| item_filename := map filename chunk;
     summary := map (summary_of summary_text prompt) chunk |}.

Definition item_of (summary_text prompt_text : conversation -> string)
    (prompt : option string) (chunk : list Sample) : payload :=
  (map filename chunk,
   map (caption_of summary_text prompt_text prompt) chunk).

(** A configuration the [DataLoader] and the executor accept, with the
    default prompt-generation template. *)
Definition usable (cfg : Config) : Prop :=
  (0 < num_data_workers cfg)%Z /\ (0 < batch_size cfg)%Z
  /\ (0 < num_artifact_workers cfg)%Z /\ prompt_gen_prompt cfg = None.


(** ** Inputs used as examples *)

(** The text of the scenario: [A cat.] between quotation marks. *)
Definition quoted_cat : string := (DQ ++ "A cat." ++ DQ)%string.

(** A batch of one sample that has no frame at all. *)
Definition frameless_batch : Batch :=
  {| videos := [ [] ]; batch_filename := [ "a.mp4" ] |}.

(** One summary, and a template that asks for a third argument. *)
Definition one_summary : VideoData :=
  {| item_filename := [ "a.mp4" ]; summary := [ "A cat sits." ] |}.

Definition bad_template : string := "Shorten this: {2}".

(** A world with no video at all. *)
Definition empty_world : World :=
  ideal_world [] (fun _ => EmptyString) (fun _ => EmptyString).




(** Three videos of two frames each, engines that answer with fixed
    texts, and batches of two. *)
Definition demo_sample (name : string) : Sample :=
  {| video := [ "f1"; "f2" ]; filename := name |}.

Definition demo_world : World :=
  ideal_world [ demo_sample "a.mp4"; demo_sample "b.mp4"; demo_sample "c.mp4" ]
    (fun _ => "A cat sits.") (fun _ => quoted_cat).

Definition demo_config : Config :=
  with_batch_size (default_config "videos" "out") 2.

(** Ten videos, batches of four, and a prompt engine whose answer runs
    over two lines. *)
Definition ten_samples : list Sample :=
  map demo_sample
    [ "v0.mp4"; "v1.mp4"; "v2.mp4"; "v3.mp4"; "v4.mp4";
      "v5.mp4"; "v6.mp4"; "v7.mp4"; "v8.mp4"; "v9.mp4" ].



Definition one_line_world : World :=
  ideal_world ten_samples (fun _ => "A cat sits.") (fun _ => quoted_cat).


(** Any number of videos, one per batch. *)
Definition config_1 : Config :=
  with_batch_size (default_config "videos" "out") 1.

Definition many_videos (n : nat) : World :=
  ideal_world (repeat (demo_sample "v.mp4") n)
    (fun _ => "A cat sits.") (fun _ => quoted_cat).

(** ** Further notions used by the properties of the whole file *)

(** A text without any brace: [str.format] finds no replacement field
    and no escape in it. *)
Fixpoint brace_free (s : string) : bool :=
  match s with
  | EmptyString => true
  | String c s' =>
      negb (Ascii.eqb c "{") && negb (Ascii.eqb c "}") && brace_free s'
  end.

(** The batches a loader yields without failure, in order. *)
Fixpoint ok_batches (dataloader : list (result Batch)) : list Batch :=
  match dataloader with
  | [] => []
  | Ok batch :: rest => batch :: ok_batches rest
  | Raise _ :: rest => ok_batches rest
  end.

(** The requests a trace sends to the engine of a given model, in
    order: the conversations of each. *)
Fixpoint requests_to (model_name : string) (t : list event)
  : list (list conversation) :=
  match t with
  | [] => []
  | EvChat e _ conversations :: t' =>
      if String.eqb (model e) model_name
      then conversations :: requests_to model_name t'
      else requests_to model_name t'
  | _ :: t' => requests_to model_name t'
  end.

(** Inline images of a whole request. *)
Definition images_in (conversations : list conversation) : nat :=
  list_sum (map images_of conversations).

(** A world in which nothing fails and each engine answers a request
    as a whole: [summary_texts] and [prompt_texts] give the texts of the
    answers to a list of conversations, however many. *)
Definition text_output (t : string) : RequestOutput :=
  {| outputs := [ {| text := t |} ] |}.

Definition batch_world (samples : list Sample)
    (summary_texts prompt_texts : list conversation -> list string) : World :=
  {| VideoDataset := Ok (map Ok samples);
     LLM := fun _ => Ok tt;
     chat := fun e _ _ conversations =>
       Ok (map text_output
             (if String.eqb (model e) "openbmb/MiniCPM-V-2_6"
              then summary_texts conversations
              else prompt_texts conversations));
     makedirs := Ok tt;
     gc_collect := Ok tt;
     empty_cache := Ok tt;
     other_format := fun _ _ => Raise ValueError |}.

(** The queue item [main] builds for a batch of samples in a
    [batch_world], with the default prompt-generation template. *)
Definition batch_item (summary_texts prompt_texts : list conversation -> list string)
    (prompt : option string) (chunk : list Sample) : payload :=
  (map filename chunk,
   map strip_quotes
     (prompt_texts
        (map (fun s => prompt_generation_conversation (prompt_gen_text s))
           (summary_texts
              (map (fun sample =>
                      summary_conversation
                        (default_prompt SUMMARY_USER_PROMPT prompt)
                        (video sample))
                 chunk))))).

(** ** Further inputs used as examples *)

(** A template without replacement field. *)
Definition fixed_template : string := "Write a prompt about a cat.".

(** A world whose summary engine cannot be loaded. *)
Definition no_engine_world : World :=
  {| VideoDataset := Ok [];
     LLM := fun _ => Raise (Failure "out of memory");
     chat := fun _ _ _ _ => Ok [];
     makedirs := Ok tt;
     gc_collect := Ok tt;
     empty_cache := Ok tt;
     other_format := fun _ _ => Raise ValueError |}.

(** A world like [demo_world] whose engines fail on every request. *)
Definition no_answer_world : World :=
  {| VideoDataset :=
       Ok [ Ok (demo_sample "a.mp4"); Ok (demo_sample "b.mp4") ];
     LLM := fun _ => Ok tt;
     chat := fun _ _ _ _ => Raise (Failure "engine died");
     makedirs := Ok tt;
     gc_collect := Ok tt;
     empty_cache := Ok tt;
     other_format := fun _ _ => Raise ValueError |}.

(** A world whose prompt engine answers every request with one text
    only, whatever the number of conversations. *)
Definition one_answer_world : World :=
  batch_world [ demo_sample "a.mp4"; demo_sample "b.mp4" ]
    (map (fun _ => "A cat sits.")) (fun _ => [ quoted_cat ]).

(** The default configuration with a prompt-generation template. *)
Definition with_template (cfg : Config) (template : string) : Config :=
  {| root_dir := root_dir cfg;
     output_dir := output_dir cfg;
     num_devices := num_devices cfg;
     max_num_frames := max_num_frames cfg;
     max_summary_tokens := max_summary_tokens cfg;
     max_prompt_gen_tokens := max_prompt_gen_tokens cfg;
     video_summary_prompt := video_summary_prompt cfg;
     prompt_gen_prompt := Some template;
     num_data_workers := num_data_workers cfg;
     batch_size := batch_size cfg;
     num_artifact_workers := num_artifact_workers cfg;
     download_dir := download_dir cfg;
     trust_remote_code := trust_remote_code cfg |}.

(** How far a phase is along the protocol. *)
Definition phase_rank (ph : phase) : nat :=
  match ph with
  | NoQueue => 0
  | NoWriter => 1
  | Producing => 2
  | Draining => 3
  | Joined => 4
  end.

(** The events of a run up to the submission of the writer. *)
Definition head (cfg : Config) : list event :=
  [ EvLLM (summary_engine cfg); EvQueue 0; EvSubmit ].

(** The [finally] block. *)
Definition drain : list event := [ EvPut None; EvShutdown ].

(** The default configuration without loader workers. *)
Definition no_worker_config : Config :=
  {| root_dir := "videos";
     output_dir := "out";
     num_devices := 1;
     max_num_frames := 8;
     max_summary_tokens := 512;
     max_prompt_gen_tokens := 256;
     video_summary_prompt := None;
     prompt_gen_prompt := None;
     num_data_workers := 0;
     batch_size := 8;
     num_artifact_workers := 4;
     download_dir := None;
     trust_remote_code := false |}.

(** A world with three videos of which the last cannot be read, and
    engines that answer. *)
Definition unreadable_world : World :=
  {| VideoDataset :=
       Ok [ Ok (demo_sample "a.mp4"); Ok (demo_sample "b.mp4");
            Raise (Failure "cannot decode c.mp4") ];
     LLM := fun _ => Ok tt;
     chat := fun e _ _ conversations =>
       Ok (map (answer (fun _ => quoted_cat)) conversations);
     makedirs := Ok tt;
     gc_collect := Ok tt;
     empty_cache := Ok tt;
     other_format := fun _ _ => Raise ValueError |}.

(** * Properties *)

(** ** Strings *)

Section Strings.

Lemma length_append (a b : string) :
  String.length (a ++ b) = String.length a + String.length b.
Proof. induction a as [|c a IH]; simpl; [reflexivity | now rewrite IH]. Qed.

Lemma append_nil_r (a : string) : (a ++ "")%string = a.
Proof. induction a as [|c a IH]; simpl; [reflexivity | now rewrite IH]. Qed.

Lemma append_assoc (a b c : string) :
  ((a ++ b) ++ c)%string = (a ++ (b ++ c))%string.
Proof. induction a as [|x a IH]; simpl; [reflexivity | now rewrite IH]. Qed.

(** All of a text but its last character, and that character. *)
Lemma substring_init (t : string) :
  t <> EmptyString ->
  exists b,
    t = (substring 0 (String.length t - 1) t ++ String b EmptyString)%string.
Proof.
  induction t as [|c t IH]; intros Hne; [congruence|].
  destruct t as [|d t'].
  - exists c. reflexivity.
  - destruct IH as [b Hb]; [discriminate|].
    exists b. simpl String.length in *.
    replace (S (S (String.length t')) - 1) with (S (S (String.length t') - 1)) by lia.
    simpl substring at 1. simpl append. f_equal. exact Hb.
Qed.

Lemma length_substring_init (t : string) (n : nat) :
  n <= String.length t -> String.length (substring 0 n t) = n.
Proof.
  revert n. induction t as [|c t IH]; intros [|n] Hn; simpl in *;
    try reflexivity; try lia.
  rewrite IH; lia.
Qed.

(** What [text[1:-1]] is, by the length of [text]. *)
Lemma strip_quotes_short (text : string) :
  String.length text <= 2 -> strip_quotes text = EmptyString.
Proof.
  intros H. unfold strip_quotes, slice, adjust_index, len.
  destruct text as [|a [|b [|c t]]]; simpl in H; try lia; reflexivity.
Qed.

Lemma strip_quotes_cons (a : ascii) (rest : string) :
  rest <> EmptyString ->
  strip_quotes (String a rest) = substring 0 (String.length rest - 1) rest.
Proof.
  intros Hne. unfold strip_quotes, slice, adjust_index, len.
  destruct rest as [|b rest]; [congruence|].
  destruct rest as [|c rest]; [reflexivity|].
  set (n := String.length (String a (String b (String c rest)))).
  assert (Hn : n = 3 + String.length rest) by reflexivity.
  replace (-1 <? 0)%Z with true by reflexivity.
  replace (1 <? 0)%Z with false by reflexivity.
  cbv zeta.
  destruct (Z.ltb_spec (-1 + Z.of_nat n) 0); [lia|].
  destruct (Z.geb_spec 1 (Z.of_nat n)); [lia|].
  destruct (Z.ltb_spec 1 (-1 + Z.of_nat n)); [|lia].
  replace (Z.to_nat 1) with 1 by reflexivity.
  replace (Z.to_nat (-1 + Z.of_nat n - 1)) with (S (String.length rest)) by lia.
  simpl String.length.
  replace (S (S (String.length rest)) - 1) with (S (String.length rest)) by lia.
  reflexivity.
Qed.

End Strings.

(** ** Stage-2 text cleanup *)

(** From a text of two characters or more, the first and the last
    character go. *)
Lemma strip_quotes_long (text : string) :
  2 <= String.length text ->
  (exists a b : ascii,
      text = String a (strip_quotes text ++ String b EmptyString))
  /\ String.length (strip_quotes text) + 2 = String.length text.
Proof.
  intros Hlen.
  destruct text as [|a rest]; [simpl in Hlen; lia|].
  assert (Hne : rest <> EmptyString).
  { destruct rest; [simpl in Hlen; lia | discriminate]. }
  rewrite (strip_quotes_cons a Hne).
  destruct (substring_init Hne) as [b Hb].
  split.
  - exists a, b. now rewrite <- Hb.
  - rewrite length_substring_init by lia. simpl in *. lia.
Qed.

(** C8, as the claim states it, fails: the quoted text has 8 characters
    and its content 6, not 7 and 5; and a text of one character loses
    that one character only, it has no second one to lose. *)
Lemma strip_quotes_counts_refuted :
  ~ (String.length quoted_cat = 7
     /\ strip_quotes quoted_cat = "A cat."
     /\ String.length "A cat." = 5)
  /\ ~ (exists a b : ascii,
          "x" = String a (strip_quotes "x" ++ String b EmptyString)).
Proof.
  split.
  - intros [H _]. vm_compute in H. discriminate.
  - intros [a [b H]]. vm_compute in H. discriminate.
Qed.

(** C8, amended: from a text of two characters or more, [text[1:-1]]
    removes exactly the first and the last character; the quoted
    [A cat.] (8 characters) becomes [A cat.] (6 characters). *)
Theorem strip_quotes_removes_both_ends (text : string) :
  2 <= String.length text ->
  (exists a b : ascii,
      text = String a (strip_quotes text ++ String b EmptyString))
  /\ String.length (strip_quotes text) + 2 = String.length text
  /\ String.length quoted_cat = 8
  /\ strip_quotes quoted_cat = "A cat."
  /\ String.length "A cat." = 6.
Proof.
  intros Hlen.
  destruct (strip_quotes_long text Hlen) as [Hab Hl].
  split; [exact Hab|]. split; [exact Hl|].
  split; [reflexivity|]. split; reflexivity.
Qed.

(** The quoted text of the scenario loses its two quotation marks. *)
Lemma strip_quotes_removes_both_ends_witness :
  exists a b : ascii,
    quoted_cat = String a (strip_quotes quoted_cat ++ String b EmptyString).
Proof.
  apply (strip_quotes_removes_both_ends quoted_cat).
  vm_compute. lia.
Defined.

(** C10: [text[1:-1]] is defined on every text, its result has the
    length of the text less two (and none below two), and every text of
    at most two characters gives the empty text. *)
Theorem strip_quotes_total (text : string) :
  String.length (strip_quotes text) = String.length text - 2
  /\ (String.length text <= 2 -> strip_quotes text = EmptyString).
Proof.
  split; [|apply strip_quotes_short].
  destruct (le_lt_dec (String.length text) 2) as [H|H].
  - rewrite (strip_quotes_short text H). simpl. lia.
  - destruct (strip_quotes_long text) as [_ Hl]; lia.
Qed.

(** Texts of two, one and no character all give the empty text. *)
Lemma strip_quotes_total_witness :
  strip_quotes "ab" = EmptyString
  /\ strip_quotes "a" = EmptyString
  /\ strip_quotes EmptyString = EmptyString.
Proof.
  split; [|split];
    [ apply (strip_quotes_total "ab")
    | apply (strip_quotes_total "a")
    | apply (strip_quotes_total EmptyString) ]; simpl; lia.
Defined.

(** ** Conversation formatters *)

Section Formatters.

Lemma fold_left_snoc {A B} (f : A -> B) (l : list A) (acc : list B) :
  fold_left (fun acc a => acc ++ [f a]) l acc = acc ++ map f l.
Proof.
  revert acc. induction l as [|a l IH]; intros acc; simpl.
  - now rewrite app_nil_r.
  - rewrite IH, <- app_assoc. reflexivity.
Qed.

Lemma fold_left_ext {A B} (f g : B -> A -> B) (l : list A) (acc : B) :
  (forall b a, f b a = g b a) -> fold_left f l acc = fold_left g l acc.
Proof.
  intros H. revert acc. induction l as [|a l IH]; intros acc; simpl.
  - reflexivity.
  - now rewrite H, IH.
Qed.

(** The loops of the summarization formatter build, for each sample in
    turn, the conversation of that sample. *)
Lemma create_video_summary_conversations_map batch prompt :
  create_video_summary_conversations batch prompt
  = map (summary_conversation (default_prompt SUMMARY_USER_PROMPT prompt))
      (videos batch).
Proof.
  unfold create_video_summary_conversations.
  fold (default_prompt SUMMARY_USER_PROMPT prompt).
  set (p := default_prompt SUMMARY_USER_PROMPT prompt).
  rewrite <- (app_nil_l (map _ _)).
  rewrite <- (fold_left_snoc (summary_conversation p) (videos batch) []).
  apply fold_left_ext. intros conversations video.
  cbv zeta. rewrite fold_left_snoc. reflexivity.
Qed.

Lemma images_of_summary_conversation p video :
  images_of (summary_conversation p video) = List.length video.
Proof.
  unfold images_of, summary_conversation. simpl. rewrite app_nil_r.
  induction video as [|frame video IH]; simpl; [reflexivity | now rewrite IH].
Qed.

(** The prompt-generation loop: either every summary is formatted, and
    the conversations are those of the formatted texts in order, or the
    first summary whose formatting raises stops the loop. *)
Lemma prompt_generation_loop_spec w prompt summaries acc :
  match prompt_generation_loop w prompt summaries acc with
  | Ok conversations =>
      exists texts,
        rmap (fun s => format w prompt [ArgStr s; ArgInt 20]) summaries
        = Ok texts
        /\ conversations = acc ++ map prompt_generation_conversation texts
  | Raise e =>
      rmap (fun s => format w prompt [ArgStr s; ArgInt 20]) summaries
      = Raise e
  end.
Proof.
  revert acc. induction summaries as [|s rest IH]; intros acc; simpl.
  - exists []. simpl. now rewrite app_nil_r.
  - destruct (format w prompt [ArgStr s; ArgInt 20]) as [formatted|e]; simpl;
      [|reflexivity].
    specialize (IH (acc ++ [prompt_generation_conversation formatted])).
    destruct (prompt_generation_loop w prompt rest _) as [convs|e].
    + destruct IH as [texts [Hr Hc]]. rewrite Hr. simpl.
      exists (formatted :: texts). split; [reflexivity|].
      rewrite Hc, <- app_assoc. reflexivity.
    + rewrite IH. reflexivity.
Qed.

Lemma rmap_ok_length {A B} (f : A -> result B) l bs :
  rmap f l = Ok bs -> List.length bs = List.length l.
Proof.
  revert bs. induction l as [|a l IH]; intros bs H; simpl in H.
  - inversion H. reflexivity.
  - destruct (f a) as [b|e]; simpl in H; [|discriminate].
    destruct (rmap f l) as [bs'|e]; simpl in H; [|discriminate].
    inversion H. simpl. now rewrite (IH bs').
Qed.

Lemma rmap_ok_nth {A B} (f : A -> result B) l bs i a :
  rmap f l = Ok bs -> nth_error l i = Some a ->
  exists b, f a = Ok b /\ nth_error bs i = Some b.
Proof.
  revert bs i. induction l as [|x l IH]; intros bs i H Hi; simpl in H.
  - destruct i; discriminate.
  - destruct (f x) as [b|e] eqn:Hx; simpl in H; [|discriminate].
    destruct (rmap f l) as [bs'|e] eqn:Hr; simpl in H; [|discriminate].
    inversion H; subst bs. destruct i as [|i]; simpl in *.
    + inversion Hi; subst. exists b. now split.
    + apply (IH bs' i); auto.
Qed.

Lemma rmap_raise {A B} (f : A -> result B) l e :
  rmap f l = Raise e ->
  exists i a, nth_error l i = Some a /\ f a = Raise e
              /\ forall j a', j < i -> nth_error l j = Some a' -> is_ok (f a') = true.
Proof.
  induction l as [|x l IH]; intros H; simpl in H; [discriminate|].
  destruct (f x) as [b|e'] eqn:Hx; simpl in H.
  - destruct (rmap f l) as [bs'|e''] eqn:Hr; simpl in H; [discriminate|].
    inversion H; subst e''. destruct (IH eq_refl) as (i & a & Hi & Ha & Hb).
    exists (S i), a. repeat split; auto.
    intros [|j] a' Hj Hn; simpl in Hn.
    + inversion Hn; subst. now rewrite Hx.
    + apply (Hb j); auto. lia.
  - inversion H; subst e'. exists 0, x. repeat split; auto.
    intros j a' Hj. lia.
Qed.

Lemma rmap_all_ok {A B} (f : A -> result B) (g : A -> B) l :
  (forall a, f a = Ok (g a)) -> rmap f l = Ok (map g l).
Proof.
  intros H. induction l as [|a l IH]; simpl; [reflexivity|].
  now rewrite H, IH.
Qed.

(** [str.format] on the default template, for any summary. *)
Lemma py_format_default (s : string) :
  py_format PROMPT_GEN_USER_PROMPT [ArgStr s; ArgInt 20]
  = Some (Ok (prompt_gen_text s)).
Proof.
  vm_compute. repeat rewrite append_assoc. reflexivity.
Qed.

Lemma format_default w (s : string) :
  format w PROMPT_GEN_USER_PROMPT [ArgStr s; ArgInt 20]
  = Ok (prompt_gen_text s).
Proof. unfold format. now rewrite py_format_default. Qed.

Lemma create_prompt_generation_conversations_default w batch :
  create_prompt_generation_conversations w batch None
  = Ok (map (fun s => prompt_generation_conversation (prompt_gen_text s))
          (summary batch)).
Proof.
  unfold create_prompt_generation_conversations.
  pose proof (prompt_generation_loop_spec w PROMPT_GEN_USER_PROMPT
                (summary batch) []) as H.
  rewrite (rmap_all_ok _ prompt_gen_text) in H by apply format_default.
  destruct (prompt_generation_loop _ _ _ _) as [convs|e]; [|discriminate].
  destruct H as [texts [Ht Hc]]. inversion Ht; subst.
  simpl. now rewrite map_map.
Qed.

End Formatters.

(** C2, as the claim states it, fails for the prompt-generation
    formatter: with a template that [str.format] rejects and a batch
    that is not empty, it returns no sequence at all. *)
Lemma prompt_generation_bad_template_raises :
  create_prompt_generation_conversations empty_world one_summary
    (Some bad_template) = Raise IndexError
  /\ ~ (exists conversations,
          create_prompt_generation_conversations empty_world one_summary
            (Some bad_template) = Ok conversations
          /\ List.length conversations = List.length (summary one_summary)).
Proof.
  split; [reflexivity|].
  intros [conversations [H _]]. vm_compute in H. discriminate.
Qed.

(** C2, amended: for every batch, the summarization formatter returns
    one conversation per sample, the i-th built from the i-th sample.
    The prompt-generation formatter does the same whenever [str.format]
    accepts the template for every summary, which it always does for the
    default template; otherwise it raises the exception of the first
    summary that cannot be formatted, and returns nothing. *)
Theorem formatters_keep_length_and_order (w : World) :
  (forall batch prompt,
      let conversations := create_video_summary_conversations batch prompt in
      List.length conversations = List.length (videos batch)
      /\ forall i video,
          nth_error (videos batch) i = Some video ->
          nth_error conversations i
          = Some (summary_conversation
                    (default_prompt SUMMARY_USER_PROMPT prompt) video))
  /\ (forall batch prompt,
        let template := default_prompt PROMPT_GEN_USER_PROMPT prompt in
        match create_prompt_generation_conversations w batch prompt with
        | Ok conversations =>
            List.length conversations = List.length (summary batch)
            /\ forall i s,
                nth_error (summary batch) i = Some s ->
                exists formatted,
                  format w template [ArgStr s; ArgInt 20] = Ok formatted
                  /\ nth_error conversations i
                     = Some (prompt_generation_conversation formatted)
        | Raise e =>
            exists i s,
              nth_error (summary batch) i = Some s
              /\ format w template [ArgStr s; ArgInt 20] = Raise e
              /\ forall j s',
                  j < i -> nth_error (summary batch) j = Some s' ->
                  is_ok (format w template [ArgStr s'; ArgInt 20]) = true
        end)
  /\ (forall batch,
        create_prompt_generation_conversations w batch None
        = Ok (map (fun s => prompt_generation_conversation (prompt_gen_text s))
                (summary batch))).
Proof.
  split; [|split].
  - intros batch prompt conversations. subst conversations.
    rewrite create_video_summary_conversations_map. split.
    + apply length_map.
    + intros i video Hi. now rewrite nth_error_map, Hi.
  - intros batch prompt template.
    unfold create_prompt_generation_conversations.
    fold (default_prompt PROMPT_GEN_USER_PROMPT prompt). fold template.
    pose proof (prompt_generation_loop_spec w template (summary batch) [])
      as H.
    destruct (prompt_generation_loop w template (summary batch) [])
      as [conversations|e].
    + destruct H as [texts [Ht Hc]]. simpl in Hc. subst conversations. split.
      * rewrite length_map. apply (rmap_ok_length _ _ Ht).
      * intros i s Hi.
        destruct (rmap_ok_nth _ _ _ Ht Hi) as [formatted [Hf Hn]].
        exists formatted. split; [exact Hf|].
        now rewrite nth_error_map, Hn.
    + apply (rmap_raise _ _ H).
  - apply create_prompt_generation_conversations_default.
Qed.

(** C5, as the claim states it, fails: for a sample without frames the
    summarization formatter does not fail; it returns a conversation
    that holds the prompt text and no image. *)
Lemma summary_formatter_accepts_frameless :
  create_video_summary_conversations frameless_batch None
  = [ [ {| msg_role := user; content := [Text SUMMARY_USER_PROMPT] |} ] ]
  /\ map images_of (create_video_summary_conversations frameless_batch None)
     = [0].
Proof. split; reflexivity. Qed.

(** C5, amended: the summarization formatter never fails and never
    skips a sample.  It returns one conversation per sample, holding as
    many images as the sample has frames; for a sample without frames
    that is a conversation of the prompt text alone. *)
Theorem summary_formatter_total (batch : Batch) (prompt : option string) :
  let conversations := create_video_summary_conversations batch prompt in
  List.length conversations = List.length (videos batch)
  /\ map images_of conversations = map (@List.length string) (videos batch)
  /\ forall i,
      nth_error (videos batch) i = Some [] ->
      nth_error conversations i
      = Some [ {| msg_role := user;
                  content :=
                    [Text (default_prompt SUMMARY_USER_PROMPT prompt)] |} ].
Proof.
  intros conversations. subst conversations.
  rewrite create_video_summary_conversations_map.
  split; [apply length_map|]. split.
  - rewrite map_map. apply map_ext. intros video.
    apply images_of_summary_conversation.
  - intros i Hi. now rewrite nth_error_map, Hi.
Qed.

(** ** The result writer *)

Section Writer.










Lemma write_all_app (fs : Files) (a b : list payload) :
  write_all fs (a ++ b) = write_all (write_all fs a) b.
Proof. apply fold_left_app. Qed.



End Writer.



(** ** The trace of [main] *)

Section MainTrace.

Ltac same_trace := simpl; rewrite <- ?app_assoc; simpl; reflexivity.

Lemma bind_fst {A B} (m : M A) (f : A -> M B) :
  fst (bind m f)
  = fst m ++ match snd m with Ok a => fst (f a) | Raise _ => [] end.
Proof.
  destruct m as [t [a|e]]; simpl.
  - destruct (f a). reflexivity.
  - now rewrite app_nil_r.
Qed.

Lemma bind_snd {A B} (m : M A) (f : A -> M B) :
  snd (bind m f)
  = match snd m with Ok a => snd (f a) | Raise e => Raise e end.
Proof.
  destruct m as [t [a|e]]; simpl; [|reflexivity].
  destruct (f a). reflexivity.
Qed.

Lemma summarize_all_trace w eng params prompt :
  forall dataloader idx video_data,
    Forall (is_chat_of eng)
      (fst (summarize_all w eng params prompt idx dataloader video_data)).
Proof.
  induction dataloader as [|next rest IH]; intros idx video_data.
  - constructor.
  - simpl summarize_all. destruct next as [batch|e]; simpl; [|constructor].
    destruct (chat w eng params idx _) as [video_summaries|e]; simpl.
    + destruct (rmap first_text video_summaries) as [summaries|e]; simpl.
      * specialize (IH (S idx)
          (video_data ++ [{| item_filename := batch_filename batch;
                             summary := summaries |}])).
        destruct (summarize_all _ _ _ _ _ _ _) as [t r]. simpl in *.
        constructor; [|exact IH]. eexists _, _. reflexivity.
      * constructor; [|constructor]. eexists _, _. reflexivity.
    + constructor; [|constructor]. eexists _, _. reflexivity.
Qed.

Lemma generate_all_trace w eng params prompt :
  forall video_data idx,
    Forall (is_stage2 eng)
      (fst (generate_all w eng params prompt idx video_data)).
Proof.
  induction video_data as [|batch rest IH]; intros idx.
  - constructor.
  - simpl generate_all.
    destruct (create_prompt_generation_conversations w batch prompt)
      as [conversations|e]; simpl; [|constructor].
    destruct (chat w eng params idx conversations) as [prompts|e]; simpl.
    + destruct (rmap first_text prompts) as [texts|e]; simpl.
      * specialize (IH (S idx)).
        destruct (generate_all _ _ _ _ _ _) as [t r]. simpl in *.
        constructor; [left; eexists _, _; reflexivity|].
        constructor; [right; eexists; reflexivity | exact IH].
      * constructor; [|constructor]. left. eexists _, _. reflexivity.
    + constructor; [|constructor]. left. eexists _, _. reflexivity.
Qed.

(** Every run of [main] has one of three shapes: it stops before the
    queue exists, or before the writer is submitted, or it submits the
    writer, does a part of its two stages, and then always puts the
    sentinel and shuts the executor down. *)
Lemma main_shape (w : World) (cfg : Config) :
  let t := fst (main w cfg) in
  let r := snd (main w cfg) in
  (t = [EvLLM (summary_engine cfg)] /\ is_ok r = false)
  \/ (t = [EvLLM (summary_engine cfg); EvQueue 0] /\ is_ok r = false)
  \/ exists body,
       body_shape cfg body
       /\ ((t = [EvLLM (summary_engine cfg); EvQueue 0; EvSubmit] ++ body
                ++ [EvPut None; EvShutdown]
            /\ is_ok r = false)
           \/ (t = [EvLLM (summary_engine cfg); EvQueue 0; EvSubmit] ++ body
                   ++ [EvPut None; EvShutdown; EvResult]
               /\ r = Ok tt)).
Proof.
  unfold main, load_summary_model, load_prompt_gen_model.
  fold (summary_engine cfg). fold (prompt_gen_engine cfg).
  cbv zeta.
  destruct (LLM w (summary_engine cfg)) as [[]|e] eqn:HL; simpl;
    [|left; now split].
  destruct (prepare_dataloader w (num_data_workers cfg) (batch_size cfg))
    as [dataloader|e]; simpl; [|left; now split].
  destruct (ThreadPoolExecutor (num_artifact_workers cfg)) as [[]|e]; simpl;
    [|right; left; now split].
  destruct (makedirs w) as [[]|e]; simpl; [|right; left; now split].
  right; right.
  pose proof (summarize_all_trace w (summary_engine cfg)
                {| max_tokens := max_summary_tokens cfg |}
                (video_summary_prompt cfg) dataloader 0 []) as H1.
  destruct (summarize_all _ _ _ _ _ _ _) as [stage1 [video_data|e]];
    simpl in *.
  2:{ exists stage1. split.
      - exists stage1. split; [exact H1|]. left. exists 0. split; [lia|].
        simpl. now rewrite app_nil_r.
      - left. split; [|reflexivity]. same_trace. }
  destruct (gc_collect w) as [[]|e]; simpl.
  2:{ exists (stage1 ++ firstn 2 (barrier cfg)). split.
      - exists stage1. split; [exact H1|]. left. exists 2. split; [lia|].
        reflexivity.
      - left. split; [|reflexivity]. same_trace. }
  destruct (empty_cache w) as [[]|e]; simpl.
  2:{ exists (stage1 ++ firstn 3 (barrier cfg)). split.
      - exists stage1. split; [exact H1|]. left. exists 3. split; [lia|].
        reflexivity.
      - left. split; [|reflexivity]. same_trace. }
  destruct (LLM w (prompt_gen_engine cfg)) as [[]|e]; simpl.
  2:{ exists (stage1 ++ barrier cfg ++ []). split.
      - exists stage1. split; [exact H1|]. right. exists []. split;
          [constructor | reflexivity].
      - left. split; [|reflexivity]. same_trace. }
  pose proof (generate_all_trace w (prompt_gen_engine cfg)
                {| max_tokens := max_prompt_gen_tokens cfg |}
                (prompt_gen_prompt cfg) video_data 0) as H2.
  destruct (generate_all _ _ _ _ _ _) as [stage2 [[]|e]]; simpl in *.
  - exists (stage1 ++ barrier cfg ++ stage2). split.
    + exists stage1. split; [exact H1|]. right. exists stage2. now split.
    + right. split; [|reflexivity]. same_trace.
  - exists (stage1 ++ barrier cfg ++ stage2). split.
    + exists stage1. split; [exact H1|]. right. exists stage2. now split.
    + left. split; [|reflexivity]. same_trace.
Qed.

End MainTrace.

(** ** Order of the engine events *)

Section EngineOrder.

Lemma split_after {A} (a b pre post : list A) (x : A) :
  a ++ b = pre ++ x :: post -> ~ In x a ->
  exists b1, pre = a ++ b1 /\ b = b1 ++ x :: post.
Proof.
  revert pre. induction a as [|y a IH]; intros pre H Hn; simpl in *.
  - exists pre. now split.
  - destruct pre as [|z pre]; simpl in H; inversion H; subst.
    + exfalso. apply Hn. now left.
    + destruct (IH pre H2) as [b1 [Hp Hb]]; [tauto|].
      exists b1. split; [now rewrite Hp | exact Hb].
Qed.

Lemma live_engines_app (a b : list event) (live : list engine) :
  live_engines (a ++ b) live = live_engines b (live_engines a live).
Proof.
  revert live. induction a as [|e a IH]; intros live; [reflexivity|].
  destruct e; simpl; apply IH.
Qed.

Lemma live_engines_keep (t : list event) (live : list engine) :
  Forall (fun e => binds_engine e = false) t -> live_engines t live = live.
Proof.
  induction 1 as [|e t He _ IH]; [reflexivity|].
  destruct e; simpl in *; try discriminate; exact IH.
Qed.

Lemma chat_keeps_engines eng (t : list event) :
  Forall (is_chat_of eng) t -> Forall (fun e => binds_engine e = false) t.
Proof.
  apply Forall_impl. intros e (idx & c & ->). reflexivity.
Qed.

Lemma stage2_keeps_engines eng (t : list event) :
  Forall (is_stage2 eng) t -> Forall (fun e => binds_engine e = false) t.
Proof.
  apply Forall_impl. intros e [(idx & c & ->)|(item & ->)]; reflexivity.
Qed.

Lemma engines_differ (cfg : Config) :
  summary_engine cfg <> prompt_gen_engine cfg.
Proof. intros H. apply (f_equal model) in H. discriminate. Qed.

Lemma not_chat_in_stage1 cfg idx conversations stage1 :
  Forall (is_chat_of (summary_engine cfg)) stage1 ->
  ~ In (EvChat (prompt_gen_engine cfg) idx conversations) stage1.
Proof.
  intros H Hin. rewrite Forall_forall in H.
  destruct (H _ Hin) as (i & c & Heq).
  apply (@engines_differ cfg). now inversion Heq.
Qed.

Lemma split_before {A} (a b pre post : list A) (x : A) :
  a ++ b = pre ++ x :: post -> ~ In x b ->
  exists a2, a = pre ++ x :: a2.
Proof.
  revert pre. induction a as [|y a IH]; intros pre H Hn; simpl in *.
  - exfalso. apply Hn. rewrite H. apply in_elt.
  - destruct pre as [|z pre]; simpl in H; inversion H; subst.
    + exists a. reflexivity.
    + destruct (IH pre H2 Hn) as [a2 Ha]. exists a2. now rewrite Ha.
Qed.

(** Where a stage-2 request can stand in the trace of a run: after the
    head of the run, all of stage 1 and the whole barrier. *)
Lemma stage2_request_position w cfg pre idx conversations post :
  fst (main w cfg)
  = pre ++ EvChat (prompt_gen_engine cfg) idx conversations :: post ->
  exists stage1 between,
    pre = [EvLLM (summary_engine cfg); EvQueue 0; EvSubmit] ++ stage1
            ++ barrier cfg ++ between
    /\ Forall (is_chat_of (summary_engine cfg)) stage1
    /\ Forall (is_stage2 (prompt_gen_engine cfg)) between.
Proof.
  intros Heq.
  set (x := EvChat (prompt_gen_engine cfg) idx conversations) in *.
  destruct (main_shape w cfg) as [[Ht _]|[[Ht _]|(body & Hb & Ht)]].
  - rewrite Ht in Heq. exfalso.
    assert (Hin : In x [EvLLM (summary_engine cfg)])
      by (rewrite Heq; apply in_elt).
    simpl in Hin. intuition discriminate.
  - rewrite Ht in Heq. exfalso.
    assert (Hin : In x [EvLLM (summary_engine cfg); EvQueue 0])
      by (rewrite Heq; apply in_elt).
    simpl in Hin. intuition discriminate.
  - assert (Ht' : exists tail,
               fst (main w cfg)
               = [EvLLM (summary_engine cfg); EvQueue 0; EvSubmit] ++ body
                   ++ tail
               /\ ~ In x tail).
    { destruct Ht as [[Ht _]|[Ht _]]; eexists; (split; [exact Ht|]);
        simpl; intuition discriminate. }
    clear Ht. destruct Ht' as (tail & Ht & Htail).
    rewrite Ht in Heq. clear Ht.
    destruct Hb as (stage1 & H1 & [(n & Hn & Hbody)|(stage2 & H2 & Hbody)]);
      subst body.
    + exfalso.
      rewrite <- !app_assoc, !app_assoc in Heq.
      apply split_after in Heq.
      * destruct Heq as (b1 & _ & Hb1).
        apply Htail. rewrite Hb1. apply in_elt.
      * intros Hin. apply in_app_or in Hin. destruct Hin as [Hin|Hin].
        -- apply in_app_or in Hin. destruct Hin as [Hin|Hin].
           ++ simpl in Hin. intuition discriminate.
           ++ now apply not_chat_in_stage1 in Hin.
        -- destruct n as [|[|[|[|n]]]]; simpl in Hin;
             try lia; intuition discriminate.
    + rewrite <- !app_assoc in Heq.
      change ([EvLLM (summary_engine cfg); EvQueue 0; EvSubmit]
              ++ stage1 ++ barrier cfg ++ stage2 ++ tail)
        with (([EvLLM (summary_engine cfg); EvQueue 0; EvSubmit] ++ stage1)
              ++ barrier cfg ++ stage2 ++ tail) in Heq.
      apply split_after in Heq.
      2:{ intros Hin. apply in_app_or in Hin. destruct Hin as [Hin|Hin].
          - simpl in Hin. intuition discriminate.
          - now apply not_chat_in_stage1 in Hin. }
      destruct Heq as (b1 & Hpre & Hb1). symmetry in Hb1.
      symmetry in Hb1. apply split_after in Hb1.
      2:{ simpl. intuition discriminate. }
      destruct Hb1 as (b2 & Hb1 & Hb2).
      apply split_before in Hb2; [|exact Htail].
      destruct Hb2 as (a2 & Hs2).
      exists stage1, b2. split; [|split].
      * rewrite Hpre, Hb1. now rewrite <- !app_assoc.
      * exact H1.
      * rewrite Hs2 in H2. apply Forall_app in H2. tauto.
Qed.

Lemma live_engines_before_stage2 cfg stage1 between :
  Forall (is_chat_of (summary_engine cfg)) stage1 ->
  Forall (is_stage2 (prompt_gen_engine cfg)) between ->
  live_engines
    ([EvLLM (summary_engine cfg); EvQueue 0; EvSubmit] ++ stage1
       ++ barrier cfg ++ between) []
  = [prompt_gen_engine cfg].
Proof.
  intros H1 H2.
  change (live_engines (stage1 ++ barrier cfg ++ between)
            [summary_engine cfg] = [prompt_gen_engine cfg]).
  rewrite live_engines_app.
  rewrite (live_engines_keep _ (chat_keeps_engines H1)).
  change (live_engines between
            (remove engine_eq_dec (summary_engine cfg) [summary_engine cfg]
             ++ [prompt_gen_engine cfg])
          = [prompt_gen_engine cfg]).
  rewrite remove_cons.
  apply live_engines_keep. apply (stage2_keeps_engines H2).
Qed.

End EngineOrder.

(** C4: in every run, whatever fails, a request to the stage-2 engine
    comes after all of stage 1 and after the whole barrier: the stage-1
    handle is deleted, the garbage collector has run, the device cache
    has been emptied, and the stage-2 engine has been loaded, in this
    order.  At the request the stage-2 engine is the only live handle,
    and between the barrier and the request only stage-2 events occur. *)
Theorem stage2_requests_follow_the_barrier
    (w : World) (cfg : Config) (pre post : list event) (idx : nat)
    (conversations : list conversation) :
  fst (main w cfg)
  = pre ++ EvChat (prompt_gen_engine cfg) idx conversations :: post ->
  (exists stage1 between,
      pre = [EvLLM (summary_engine cfg); EvQueue 0; EvSubmit] ++ stage1
              ++ [EvDel (summary_engine cfg); EvGcCollect; EvEmptyCache;
                  EvLLM (prompt_gen_engine cfg)]
              ++ between
      /\ Forall (is_chat_of (summary_engine cfg)) stage1
      /\ Forall (is_stage2 (prompt_gen_engine cfg)) between)
  /\ live_engines pre [] = [prompt_gen_engine cfg]
  /\ ~ In (summary_engine cfg) (live_engines pre []).
Proof.
  intros Heq.
  destruct (stage2_request_position _ _ _ _ _ _ Heq)
    as (stage1 & between & Hpre & H1 & H2).
  assert (Hlive : live_engines pre [] = [prompt_gen_engine cfg]).
  { rewrite Hpre. now apply live_engines_before_stage2. }
  split; [|split].
  - exists stage1, between. now repeat split.
  - exact Hlive.
  - rewrite Hlive. simpl. intros [H|[]].
    now apply (@engines_differ cfg).
Qed.

(** In the run of [demo_world], the first stage-2 request is the tenth
    event; before it only the stage-2 engine is live. *)
Lemma stage2_requests_follow_the_barrier_witness :
  let t := fst (main demo_world demo_config) in
  live_engines (firstn 9 t) [] = [prompt_gen_engine demo_config]
  /\ ~ In (summary_engine demo_config) (live_engines (firstn 9 t) []).
Proof.
  intros t.
  apply (@stage2_requests_follow_the_barrier demo_world demo_config
           (firstn 9 t) (skipn 10 t) 0
           (match nth 9 t EvResult with
            | EvChat _ _ c => c
            | _ => []
            end)).
  vm_compute. reflexivity.
Defined.

(** ** The two threads together *)

Section System.

Lemma puts_of_app (a b : list event) :
  puts_of (a ++ b) = puts_of a ++ puts_of b.
Proof.
  induction a as [|e a IH]; [reflexivity|].
  destruct e; simpl; now rewrite ?IH.
Qed.

Lemma payloads_app (a b : list (option payload)) :
  payloads (a ++ b) = payloads a ++ payloads b.
Proof.
  induction a as [|[item|] a IH]; simpl; now rewrite ?IH.
Qed.


Lemma real_map_Some (l : list (option payload)) :
  Forall real l -> exists ps, l = map Some ps.
Proof.
  induction 1 as [|[p|] l Hp _ [ps IH]].
  - exists []. reflexivity.
  - exists (p :: ps). now rewrite IH.
  - exfalso. now apply Hp.
Qed.

Lemma map_Some_real (ps : list payload) : Forall real (map Some ps).
Proof. induction ps; constructor; [discriminate | assumption]. Qed.

Lemma conforms_app (ph : phase) (a b : list event) :
  conforms ph (a ++ b)
  = match conforms ph a with
    | Some ph' => conforms ph' b
    | None => None
    end.
Proof.
  revert ph. induction a as [|e a IH]; intros ph; simpl; [reflexivity|].
  destruct (protocol ph e); [apply IH | reflexivity].
Qed.

Lemma protocol_quiet (ph : phase) (e : event) :
  quiet e = true -> protocol ph e = Some ph.
Proof. destruct e, ph; simpl; congruence. Qed.

Lemma conforms_quiet (ph : phase) (t : list event) :
  Forall (fun e => quiet e = true) t -> conforms ph t = Some ph.
Proof.
  induction 1 as [|e t He _ IH]; simpl; [reflexivity|].
  now rewrite (protocol_quiet ph e He).
Qed.

Lemma conforms_stage2 eng (t : list event) :
  Forall (is_stage2 eng) t -> conforms Producing t = Some Producing.
Proof.
  induction 1 as [|e t He _ IH]; simpl; [reflexivity|].
  destruct He as [(idx & c & ->)|(item & ->)]; simpl; exact IH.
Qed.

Lemma puts_of_quiet (t : list event) :
  Forall (fun e => quiet e = true) t -> puts_of t = [].
Proof.
  induction 1 as [|e t He _ IH]; [reflexivity|].
  destruct e; simpl in *; congruence.
Qed.

Lemma puts_of_stage2 eng (t : list event) :
  Forall (is_stage2 eng) t -> exists ps, puts_of t = map Some ps.
Proof.
  induction 1 as [|e t He _ [ps IH]]; [exists []; reflexivity|].
  destruct He as [(idx & c & ->)|(item & ->)]; simpl.
  - exists ps. exact IH.
  - exists (item :: ps). now rewrite IH.
Qed.

Lemma chat_quiet eng (t : list event) :
  Forall (is_chat_of eng) t -> Forall (fun e => quiet e = true) t.
Proof. apply Forall_impl. intros e (idx & c & ->). reflexivity. Qed.

Lemma barrier_prefix_quiet cfg n :
  Forall (fun e => quiet e = true) (firstn n (barrier cfg)).
Proof.
  unfold barrier.
  destruct n as [|[|[|[|n]]]]; simpl; repeat constructor.
  destruct n; constructor.
Qed.

Lemma barrier_quiet cfg : Forall (fun e => quiet e = true) (barrier cfg).
Proof. exact (barrier_prefix_quiet cfg 4). Qed.

(** The part of a run between the submission of the writer and the
    [finally] block keeps the main thread producing, and puts only real
    items. *)
Lemma body_shape_producing cfg body :
  body_shape cfg body ->
  conforms Producing body = Some Producing
  /\ exists ps, puts_of body = map Some ps.
Proof.
  intros (stage1 & H1 & [(n & _ & ->)|(stage2 & H2 & ->)]).
  - assert (Hq : Forall (fun e => quiet e = true)
                   (stage1 ++ firstn n (barrier cfg))).
    { apply Forall_app. split;
        [exact (chat_quiet H1) | apply barrier_prefix_quiet]. }
    split; [now apply conforms_quiet|].
    exists []. now apply puts_of_quiet.
  - split.
    + rewrite conforms_app, (conforms_quiet _ (chat_quiet H1)).
      rewrite conforms_app, (conforms_quiet _ (barrier_quiet cfg)).
      exact (conforms_stage2 H2).
    + rewrite !puts_of_app.
      rewrite (puts_of_quiet (chat_quiet H1)).
      rewrite (puts_of_quiet (barrier_quiet cfg)).
      exact (puts_of_stage2 H2).
Qed.

(** The trace of every run conforms to the protocol.  A run that
    submits the writer ends joined, having put real items and then the
    sentinel, once; a run that does not submit it puts nothing. *)
Lemma main_conforms (w : World) (cfg : Config) :
  let t := fst (main w cfg) in
  (~ In EvSubmit t
   /\ (conforms NoQueue t = Some NoQueue \/ conforms NoQueue t = Some NoWriter)
   /\ puts_of t = []
   /\ is_ok (snd (main w cfg)) = false)
  \/ (In EvSubmit t
      /\ conforms NoQueue t = Some Joined
      /\ exists ps, puts_of t = map Some ps ++ [None]).
Proof.
  destruct (main_shape w cfg) as [[Ht Hr]|[[Ht Hr]|(body & Hb & Ht)]];
    cbv zeta.
  - left. rewrite Ht. repeat split; auto. simpl. intuition discriminate.
  - left. rewrite Ht. repeat split; auto. simpl. intuition discriminate.
  - right. destruct (body_shape_producing Hb) as [Hc [ps Hp]].
    assert (Hin : forall tail,
               In EvSubmit
                 ([EvLLM (summary_engine cfg); EvQueue 0; EvSubmit]
                    ++ body ++ tail)).
    { intros tail. simpl. auto. }
    destruct Ht as [[Ht _]|[Ht _]]; rewrite Ht; (split; [apply Hin|]).
    + split.
      * simpl. rewrite conforms_app, Hc. reflexivity.
      * exists ps. simpl. rewrite puts_of_app, Hp. reflexivity.
    + split.
      * simpl. rewrite conforms_app, Hc. reflexivity.
      * exists ps. simpl. rewrite puts_of_app, Hp. reflexivity.
Qed.

Lemma invariant_initial t fs0 final :
  conforms NoQueue t = Some final -> invariant t fs0 final (initial t fs0).
Proof.
  intros H. exists NoQueue, []. simpl. repeat split; auto.
Qed.

Lemma phase_ok_same ph s s' consumed :
  output_queue s' = output_queue s -> writer s' = writer s ->
  phase_ok ph s consumed -> phase_ok ph s' consumed.
Proof.
  intros Hq Hw. unfold phase_ok, waiting. rewrite Hq, Hw. auto.
Qed.

Lemma conforms_cons ph e rest final :
  conforms ph (e :: rest) = Some final ->
  exists ph', protocol ph e = Some ph' /\ conforms ph' rest = Some final.
Proof.
  simpl. destruct (protocol ph e) as [ph'|]; [|discriminate].
  intros H. exists ph'. now split.
Qed.

Lemma put_unbounded q item :
  (maxsize q <= 0)%Z ->
  put q item = Some {| maxsize := maxsize q; items := items q ++ [item] |}.
Proof.
  intros H. unfold put, full.
  destruct (Z.ltb_spec 0 (maxsize q)); [lia | reflexivity].
Qed.

Lemma put_items q item q' :
  put q item = Some q' ->
  maxsize q' = maxsize q /\ items q' = items q ++ [item].
Proof.
  unfold put. destruct (full q); [discriminate|].
  intros H. inversion H. now split.
Qed.

Lemma invariant_main_step t fs0 final s s' :
  invariant t fs0 final s -> main_step s = Some s' ->
  invariant t fs0 final s'.
Proof.
  intros (ph & consumed & Hc & Hp & Hf & Hok) Hstep.
  unfold main_step in Hstep.
  destruct (main_todo s) as [|e rest] eqn:Htodo; [discriminate|].
  destruct (conforms_cons _ _ _ Hc) as (ph' & Hpr & Hc').
  destruct (quiet e) eqn:Hq.
  - (* an event that touches neither the queue nor the writer *)
    rewrite (protocol_quiet ph e Hq) in Hpr. inversion Hpr; subst ph'.
    assert (Hs' : s' = {| main_todo := rest; output_queue := output_queue s;
                          writer := writer s; files := files s |}).
    { destruct e; simpl in Hq; try discriminate; now inversion Hstep. }
    exists ph, consumed. subst s'. simpl.
    split; [exact Hc'|].
    split; [|split; [exact Hf | now apply (phase_ok_same ph s)]].
    rewrite Hp. unfold waiting. simpl.
    destruct e; simpl in Hq; try discriminate; reflexivity.
  - destruct e; simpl in Hq; try discriminate.
    + (* the queue is made *)
      destruct ph; simpl in Hpr; try discriminate.
      destruct (Z.leb_spec maxsize0 0); [|discriminate].
      inversion Hpr; subst ph'. inversion Hstep; subst s'.
      destruct Hok as (Hnone & Hw & ->).
      exists NoWriter, []. unfold phase_ok, waiting in *. simpl.
      rewrite Hnone in *. repeat split; auto.
      eexists. simpl. repeat split; auto.
    + (* the writer is submitted *)
      destruct ph; simpl in Hpr; try discriminate.
      inversion Hpr; subst ph'. inversion Hstep; subst s'.
      destruct Hok as ((q & Hq' & Hm & Hi) & Hw & ->).
      exists Producing, []. unfold phase_ok, waiting in *. simpl.
      rewrite Hq' in *. repeat split; auto.
      * exists q. now split.
      * rewrite Hi. constructor.
    + (* an item is put *)
      destruct ph; try (destruct item; simpl in Hpr; discriminate).
      destruct Hok as ((q & Hq' & Hm) & Hw & Hrc & Hrw).
      rewrite Hq' in Hstep.
      destruct (put q item) as [q'|] eqn:Hput; [|discriminate].
      destruct (put_items _ _ Hput) as [Hm' Hi'].
      inversion Hstep; subst s'. unfold waiting in *. rewrite Hq' in *.
      destruct item as [p|]; simpl in Hpr; inversion Hpr; subst ph'.
      * exists Producing, consumed. unfold phase_ok, waiting. simpl.
        repeat split; auto.
        -- rewrite Hp, Hi'. simpl. now rewrite <- app_assoc.
        -- exists q'. split; [reflexivity | lia].
        -- rewrite Hi'. apply Forall_app. split; [exact Hrw|].
           constructor; [discriminate | constructor].
      * exists Draining, consumed. unfold phase_ok, waiting. simpl.
        repeat split; auto.
        -- rewrite Hp, Hi'. simpl. now rewrite <- app_assoc.
        -- exists q'. split; [reflexivity | lia].
        -- left. repeat split; auto. exists (items q). now split.
    + (* the executor is shut down *)
      destruct ph; simpl in Hpr; try discriminate.
      inversion Hpr; subst ph'.
      destruct Hok as (Hq' & [(Hw & _)|(Hw & Hwait & Hl)]).
      * rewrite Hw in Hstep. discriminate.
      * rewrite Hw in Hstep. inversion Hstep; subst s'.
        exists Joined, consumed. unfold phase_ok, waiting in *. simpl.
        repeat split; auto.
Qed.

Lemma sentinel_first (l rest : list (option payload)) :
  Forall real l -> l ++ [None] = None :: rest -> l = [] /\ rest = [].
Proof.
  intros Hl H. destruct l as [|x l]; simpl in H.
  - inversion H. now split.
  - inversion H; subst. inversion Hl as [|? ? Hx _]; subst.
    exfalso. now apply Hx.
Qed.

Lemma invariant_writer_step t fs0 final s s' :
  invariant t fs0 final s -> writer_step s = Some s' ->
  invariant t fs0 final s'.
Proof.
  intros (ph & consumed & Hc & Hp & Hf & Hok) Hstep.
  unfold writer_step in Hstep.
  destruct (writer s) eqn:Hw; try discriminate.
  destruct (output_queue s) as [q|] eqn:Hq; [|discriminate].
  unfold get, get_timeout in Hstep. unfold waiting in Hp. rewrite Hq in Hp.
  destruct (items q) as [|item rest] eqn:Hi.
  - (* the queue is empty: the [get] times out, the loop goes on *)
    simpl in Hstep. inversion Hstep; subst s'.
    exists ph, consumed. unfold waiting. simpl. rewrite Hi.
    repeat split; auto.
    apply (phase_ok_same ph s); simpl; auto.
  - destruct item as [p|]; simpl in Hstep; inversion Hstep; subst s';
      clear Hstep.
    + (* a real item: it is written *)
      exists ph, (consumed ++ [Some p]). unfold waiting. simpl.
      split; [exact Hc|]. split; [|split].
      * rewrite Hp. now rewrite <- app_assoc.
      * rewrite payloads_app, write_all_app, <- Hf. reflexivity.
      * destruct ph; unfold phase_ok, waiting in *; simpl;
          rewrite ?Hw, ?Hq, ?Hi in Hok.
        -- destruct Hok as (H & _). discriminate.
        -- destruct Hok as (_ & H & _). discriminate.
        -- destruct Hok as ((q0 & Hq0 & Hm) & _ & Hrc & Hrw).
           inversion Hq0; subst q0. inversion Hrw; subst.
           repeat split; auto.
           ++ eexists. split; [reflexivity | exact Hm].
           ++ apply Forall_app. split; [exact Hrc|].
              constructor; [discriminate | constructor].
        -- destruct Hok as ((q0 & Hq0 & Hm) & [(_ & Hrc & l & Hl & Hrl)|(H & _)]);
             [|discriminate].
           inversion Hq0; subst q0.
           destruct l as [|x l]; simpl in Hl; inversion Hl; subst.
           split; [eexists; split; [reflexivity | exact Hm]|].
           left. split; [reflexivity|]. split.
           ++ apply Forall_app. split; [exact Hrc|].
              constructor; [discriminate | constructor].
           ++ exists l. split; [reflexivity|]. now inversion Hrl.
        -- destruct Hok as (H & _). discriminate.
    + (* the sentinel: the loop ends *)
      exists ph, (consumed ++ [None]). unfold waiting. simpl.
      split; [exact Hc|]. split; [|split].
      * rewrite Hp. now rewrite <- app_assoc.
      * rewrite payloads_app, app_nil_r. exact Hf.
      * destruct ph; unfold phase_ok, waiting in *; simpl;
          rewrite ?Hw, ?Hq, ?Hi in Hok.
        -- destruct Hok as (H & _). discriminate.
        -- destruct Hok as (_ & H & _). discriminate.
        -- destruct Hok as (_ & _ & _ & Hrw).
           inversion Hrw as [|? ? Hx _]; subst. exfalso. now apply Hx.
        -- destruct Hok as ((q0 & Hq0 & Hm) & [(_ & Hrc & l & Hl & Hrl)|(H & _)]);
             [|discriminate].
           inversion Hq0; subst q0.
           symmetry in Hl. destruct (sentinel_first Hrl Hl) as [-> ->].
           split; [eexists; split; [reflexivity | exact Hm]|].
           right. repeat split; auto. exists consumed. now split.
        -- destruct Hok as (H & _). discriminate.
Qed.

(** The invariant holds in every state the two threads can reach. *)
Lemma invariant_reachable t fs0 final s :
  conforms NoQueue t = Some final ->
  reachable (initial t fs0) s -> invariant t fs0 final s.
Proof.
  intros Ht. induction 1 as [|s s' _ IH [Hm|Hw]].
  - now apply invariant_initial.
  - now apply (invariant_main_step IH).
  - now apply (invariant_writer_step IH).
Qed.

(** When the main thread is done, the writer has returned, the queue
    is empty and every real item that was put has been written, in the
    order of the puts. *)
Lemma finished_state t fs0 s :
  conforms NoQueue t = Some Joined ->
  reachable (initial t fs0) s -> main_todo s = [] ->
  writer s = Returned /\ waiting s = []
  /\ files s = write_all fs0 (payloads (puts_of t)).
Proof.
  intros Ht Hr Hdone.
  destruct (invariant_reachable Ht Hr)
    as (ph & consumed & Hc & Hp & Hf & Hok).
  rewrite Hdone in Hc, Hp. simpl in Hc. inversion Hc; subst ph.
  destruct Hok as (Hw & Hwait & _).
  rewrite Hwait in Hp. simpl in Hp. rewrite app_nil_r in Hp.
  rewrite Hp. now repeat split.
Qed.

(** Outside the shutdown, the main thread can always take its next
    step: no [put] ever waits.  The step leaves the files alone and adds
    to the queue what it puts. *)
Lemma main_step_enabled ph ph' e rest s consumed :
  phase_ok ph s consumed -> main_todo s = e :: rest ->
  protocol ph e = Some ph' -> e <> EvShutdown ->
  exists s',
    main_step s = Some s' /\ main_todo s' = rest
    /\ phase_ok ph' s' consumed
    /\ waiting s' = waiting s ++ puts_of [e]
    /\ files s' = files s.
Proof.
  intros Hok Htodo Hpr Hne. unfold main_step. rewrite Htodo.
  destruct (quiet e) eqn:Hq.
  - rewrite (protocol_quiet ph e Hq) in Hpr. inversion Hpr; subst ph'.
    exists {| main_todo := rest; output_queue := output_queue s;
              writer := writer s; files := files s |}.
    split; [destruct e; simpl in Hq; try discriminate; reflexivity|].
    split; [reflexivity|]. split; [now apply (phase_ok_same ph s)|].
    split; [|reflexivity].
    unfold waiting. simpl.
    destruct e; simpl in Hq; try discriminate; now rewrite app_nil_r.
  - destruct e; simpl in Hq; try discriminate; [| | |congruence].
    + destruct ph; simpl in Hpr; try discriminate.
      destruct (Z.leb_spec maxsize0 0); [|discriminate].
      inversion Hpr; subst ph'. destruct Hok as (Hnone & Hw & ->).
      eexists. split; [reflexivity|]. unfold phase_ok, waiting. simpl.
      rewrite Hnone. repeat split; auto.
      eexists. simpl. repeat split; auto.
    + destruct ph; simpl in Hpr; try discriminate.
      inversion Hpr; subst ph'.
      destruct Hok as ((q & Hq' & Hm & Hi) & Hw & ->).
      eexists. split; [reflexivity|]. unfold phase_ok, waiting. simpl.
      rewrite Hq', Hi. repeat split; auto.
      exists q. now split.
    + destruct ph; try (destruct item; simpl in Hpr; discriminate).
      destruct Hok as ((q & Hq' & Hm) & Hw & Hrc & Hrw).
      rewrite Hq'. rewrite (put_unbounded q item Hm).
      eexists. split; [reflexivity|]. unfold phase_ok, waiting in *|-*.
      simpl. rewrite Hq' in *. split; [reflexivity|].
      split; [|split; reflexivity].
      destruct item as [p|]; simpl in Hpr; inversion Hpr; subst ph'.
      * repeat split; auto.
        -- eexists. split; [reflexivity | exact Hm].
        -- apply Forall_app. split; [exact Hrw|].
           constructor; [discriminate | constructor].
      * split; [eexists; split; [reflexivity | exact Hm]|].
        left. repeat split; auto. exists (items q). now split.
Qed.

Lemma reachable_main_only s0 n s :
  reachable s0 s -> reachable s0 (main_only n s).
Proof.
  revert s. induction n as [|n IH]; intros s Hs; simpl; [exact Hs|].
  destruct (main_step s) as [s'|] eqn:Hstep; [|exact Hs].
  apply IH. apply (reach_step Hs). now left.
Qed.

(** Running the main thread alone through a part of its trace that
    holds no shutdown: everything it puts is then waiting in the queue. *)
Lemma main_only_spec pre :
  forall ph ph' rest s consumed,
    conforms ph pre = Some ph' -> ~ In EvShutdown pre ->
    main_todo s = pre ++ rest -> phase_ok ph s consumed ->
    let s' := main_only (List.length pre) s in
    main_todo s' = rest /\ phase_ok ph' s' consumed
    /\ waiting s' = waiting s ++ puts_of pre
    /\ files s' = files s.
Proof.
  induction pre as [|e pre IH]; intros ph ph' rest s consumed Hc Hn Ht Hok.
  - simpl in *. inversion Hc; subst. rewrite app_nil_r. now repeat split.
  - destruct (conforms_cons _ _ _ Hc) as (ph1 & Hpr & Hc1).
    destruct (@main_step_enabled ph ph1 e (pre ++ rest) s consumed)
      as (s1 & Hstep & Ht1 & Hok1 & Hw1 & Hf1); auto.
    { intros ->. apply Hn. now left. }
    simpl main_only. rewrite Hstep.
    destruct (IH ph1 ph' rest s1 consumed) as (Ha & Hb & Hc2 & Hd); auto.
    { intros Hin. apply Hn. now right. }
    cbv zeta. repeat split; auto.
    + rewrite Hc2, Hw1, <- app_assoc. f_equal.
      change (e :: pre) with ([e] ++ pre). now rewrite puts_of_app.
    + now rewrite Hd.
Qed.

Lemma reachable_run s0 n s : reachable s0 s -> reachable s0 (run n s).
Proof.
  revert s. induction n as [|n IH]; intros s Hs; simpl; [exact Hs|].
  destruct (main_step s) as [s'|] eqn:Hm.
  - apply IH. apply (reach_step Hs). now left.
  - destruct (writer_step s) as [s'|] eqn:Hw; [|exact Hs].
    apply IH. apply (reach_step Hs). now right.
Qed.

Lemma writer_step_todo s s' :
  writer_step s = Some s' -> main_todo s' = main_todo s.
Proof.
  unfold writer_step. destruct (writer s); try discriminate.
  destruct (output_queue s) as [q|]; [|discriminate].
  destruct (get q get_timeout) as [[got q']|]; [|discriminate].
  destruct (save_results_body got (files s)).
  intros H. inversion H. reflexivity.
Qed.

Lemma run_done n s : main_todo s = [] -> main_todo (run n s) = [].
Proof.
  revert s. induction n as [|n IH]; intros s Hs; simpl; [exact Hs|].
  unfold main_step. rewrite Hs.
  destruct (writer_step s) as [s'|] eqn:Hw; [|exact Hs].
  apply IH. now rewrite (writer_step_todo _ Hw).
Qed.

Lemma writer_step_takes s q x r :
  writer s = Running -> output_queue s = Some q -> items q = x :: r ->
  exists s', writer_step s = Some s' /\ waiting s' = r.
Proof.
  intros Hw Hq Hi. unfold writer_step, get. rewrite Hw, Hq, Hi.
  destruct (save_results_body (Got x) (files s)) as [fs again].
  eexists. split; [reflexivity|]. reflexivity.
Qed.

Lemma puts_of_one (e : event) : List.length (puts_of [e]) <= 1.
Proof. destruct e; simpl; lia. Qed.

(** Under the schedule of [run] the main thread always comes to its
    end: it is never held up but at the shutdown, and there the writer
    empties the queue, meets the sentinel and returns. *)
Lemma run_finishes t fs0 final n :
  forall s,
    invariant t fs0 final s ->
    2 * List.length (main_todo s) + List.length (waiting s) <= n ->
    main_todo (run n s) = [].
Proof.
  induction n as [|n IH]; intros s Hinv Hn.
  - simpl. destruct (main_todo s); [reflexivity | simpl in Hn; lia].
  - destruct (main_todo s) as [|e rest] eqn:Htodo.
    { now apply run_done. }
    pose proof Hinv as (ph & consumed & Hc & Hp & Hf & Hok).
    rewrite Htodo in Hc.
    destruct (conforms_cons _ _ _ Hc) as (ph1 & Hpr & Hc1).
    simpl in Hn.
    assert (Hmain : forall s1,
               main_step s = Some s1 -> main_todo s1 = rest ->
               List.length (waiting s1) <= List.length (waiting s) + 1 ->
               main_todo (run (S n) s) = []).
    { intros s1 Hstep Ht1 Hw1. simpl. rewrite Hstep. apply IH.
      - now apply (invariant_main_step Hinv).
      - rewrite Ht1. lia. }
    assert (Hcase : e = EvShutdown \/ e <> EvShutdown).
    { destruct e; (left; reflexivity) || (right; discriminate). }
    destruct Hcase as [->|Hne].
    + destruct ph; simpl in Hpr; try discriminate.
      destruct Hok as ((q & Hq & Hm) & [(Hw & _ & l & Hl & _)|(Hw & Hwait & _)]).
      * (* the writer is still running: it takes the next item *)
        assert (Hblocked : main_step s = None).
        { unfold main_step. now rewrite Htodo, Hw. }
        unfold waiting in Hl. rewrite Hq in Hl.
        destruct (items q) as [|x r] eqn:Hi.
        { destruct l; discriminate. }
        destruct (writer_step_takes s Hw Hq Hi) as (s1 & Hstep & Hw1).
        simpl. rewrite Hblocked, Hstep. apply IH.
        -- now apply (invariant_writer_step Hinv).
        -- rewrite (writer_step_todo _ Hstep), Htodo, Hw1.
           unfold waiting in Hn. rewrite Hq, Hi in Hn. simpl in *. lia.
      * (* the writer has returned: the shutdown is passed *)
        apply (Hmain {| main_todo := rest; output_queue := output_queue s;
                        writer := writer s; files := files s |}).
        -- unfold main_step. now rewrite Htodo, Hw.
        -- reflexivity.
        -- unfold waiting. simpl. lia.
    + destruct (@main_step_enabled ph ph1 e rest s consumed)
        as (s1 & Hstep & Ht1 & _ & Hw1 & _); auto.
      apply (Hmain s1 Hstep Ht1).
      rewrite Hw1, length_app. pose proof (puts_of_one e). lia.
Qed.

End System.

(** C1: in every run of [main] that submits the writer, whatever call
    fails afterwards, the main thread puts the sentinel exactly once,
    after every real item, and then shuts the executor down, which waits
    for the writer; only then does it return or let the exception go on.
    However the two threads interleave, once the main thread is done the
    writer has returned, the queue is empty and all real items are
    written; and the main thread does come to its end. *)
Theorem sentinel_once_and_writer_joined
    (w : World) (cfg : Config) (fs0 : Files) :
  let t := fst (main w cfg) in
  In EvSubmit t ->
  (exists ps, puts_of t = map Some ps ++ [None])
  /\ (exists body tail,
        t = [EvLLM (summary_engine cfg); EvQueue 0; EvSubmit] ++ body
              ++ [EvPut None; EvShutdown] ++ tail
        /\ body_shape cfg body
        /\ ((tail = [] /\ is_ok (snd (main w cfg)) = false)
            \/ (tail = [EvResult] /\ snd (main w cfg) = Ok tt)))
  /\ (forall s,
        reachable (initial t fs0) s -> main_todo s = [] ->
        writer s = Returned /\ waiting s = []
        /\ files s = write_all fs0 (payloads (puts_of t)))
  /\ (exists n,
        reachable (initial t fs0) (run n (initial t fs0))
        /\ main_todo (run n (initial t fs0)) = []).
Proof.
  intros t Hsub.
  destruct (main_conforms w cfg) as [(Hno & _)|(_ & Hc & Hp)];
    [contradiction|].
  fold t in Hc, Hp.
  split; [exact Hp|]. split; [|split].
  - destruct (main_shape w cfg) as [[Ht _]|[[Ht _]|(body & Hb & Ht)]].
    + exfalso. fold t in Ht. rewrite Ht in Hsub. simpl in Hsub.
      intuition discriminate.
    + exfalso. fold t in Ht. rewrite Ht in Hsub. simpl in Hsub.
      intuition discriminate.
    + exists body. fold t in Ht.
      destruct Ht as [[Ht Hr]|[Ht Hr]].
      * exists []. rewrite app_nil_r. split; [exact Ht|].
        split; [exact Hb|]. left. now split.
      * exists [EvResult]. split; [exact Ht|].
        split; [exact Hb|]. right. now split.
  - intros s Hr Hdone. now apply finished_state.
  - exists (2 * List.length t + 0).
    split; [apply reachable_run; constructor|].
    apply (@run_finishes t fs0 Joined).
    + now apply invariant_initial.
    + simpl. lia.
Qed.

(** The run of [demo_world] submits the writer, and puts its items and
    then the sentinel. *)
Lemma sentinel_once_and_writer_joined_witness :
  exists ps,
    puts_of (fst (main demo_world demo_config)) = map Some ps ++ [None].
Proof.
  apply (sentinel_once_and_writer_joined demo_world demo_config no_files).
  vm_compute. tauto.
Defined.

(** ** Runs in which nothing fails *)

Section Ideal.

Variable samples : list Sample.
Variables summary_text prompt_text : conversation -> string.

Let W : World := ideal_world samples summary_text prompt_text.

Lemma batch_sampler_map {A B} (h : A -> B) (n : nat) (l acc : list A) :
  batch_sampler n (map h l) (map h acc)
  = map (map h) (batch_sampler n l acc).
Proof.
  revert acc. induction l as [|a l IH]; intros acc; simpl.
  - rewrite length_map. destruct (0 <? List.length acc)%nat; reflexivity.
  - rewrite length_app, length_app, length_map. simpl.
    destruct (List.length acc + 1 =? n)%nat.
    + simpl. f_equal.
      * now rewrite map_app.
      * apply (IH []).
    + change [h a] with (map h [a]). rewrite <- map_app. apply IH.
Qed.

Lemma rmap_map_Ok {A} (l : list A) :
  rmap (fun r : result A => r) (map Ok l) = Ok l.
Proof. induction l as [|a l IH]; simpl; [reflexivity | now rewrite IH]. Qed.

Lemma fetch_ok (chunk : list Sample) :
  fetch (map Ok chunk) = Ok (collate_fn chunk).
Proof. unfold fetch. now rewrite rmap_map_Ok. Qed.

Lemma prepare_dataloader_ideal (workers size : Z) :
  (0 < workers)%Z -> (0 < size)%Z ->
  prepare_dataloader W workers size
  = Ok (map (fun chunk => Ok (collate_fn chunk))
          (batch_sampler (Z.to_nat size) samples [])).
Proof.
  intros Hw Hs. unfold prepare_dataloader. simpl.
  destruct (Z.leb_spec workers 0); [lia|].
  destruct (Z.leb_spec size 0); [lia|].
  f_equal. change (@nil (result Sample)) with (map (@Ok Sample) []).
  rewrite batch_sampler_map, map_map.
  apply map_ext. intros chunk. apply fetch_ok.
Qed.

Lemma rmap_first_text_answer (f : conversation -> string)
    (conversations : list conversation) :
  rmap first_text (map (answer f) conversations) = Ok (map f conversations).
Proof.
  induction conversations as [|c l IH]; simpl; [reflexivity|].
  now rewrite IH.
Qed.

Lemma summarize_all_ideal cfg prompt chunks :
  forall idx video_data,
    snd (summarize_all W (summary_engine cfg)
           {| max_tokens := max_summary_tokens cfg |} prompt idx
           (map (fun chunk => Ok (collate_fn chunk)) chunks) video_data)
    = Ok (video_data ++ map (video_data_of summary_text prompt) chunks).
Proof.
  induction chunks as [|chunk chunks IH]; intros idx video_data.
  - simpl. now rewrite app_nil_r.
  - simpl. rewrite rmap_first_text_answer.
    match goal with
    | |- context [summarize_all ?a ?b ?c ?d ?e ?f ?g] =>
        specialize (IH e g); destruct (summarize_all a b c d e f g) as [t r]
    end.
    simpl in *. rewrite IH, <- app_assoc. simpl.
    unfold video_data_of, summary_of.
    rewrite create_video_summary_conversations_map. simpl.
    now rewrite !map_map.
Qed.

Lemma generate_all_ideal cfg prompt chunks :
  forall idx,
    let run2 :=
      generate_all W (prompt_gen_engine cfg)
        {| max_tokens := max_prompt_gen_tokens cfg |} None idx
        (map (video_data_of summary_text prompt) chunks) in
    snd run2 = Ok tt
    /\ puts_of (fst run2)
       = map (fun chunk => Some (item_of summary_text prompt_text prompt chunk))
           chunks.
Proof.
  induction chunks as [|chunk chunks IH]; intros idx.
  - simpl. now split.
  - cbv zeta. simpl map. cbn [generate_all].
    rewrite create_prompt_generation_conversations_default.
    simpl. rewrite rmap_first_text_answer.
    specialize (IH (S idx)). cbv zeta in IH.
    match goal with
    | |- context [generate_all ?a ?b ?c ?d ?e ?f] =>
        destruct (generate_all a b c d e f) as [t r]
    end.
    simpl in *. destruct IH as [Hr Hp]. split; [exact Hr|].
    rewrite Hp. f_equal. unfold item_of, caption_of. f_equal. f_equal.
    now rewrite !map_map.
Qed.

(** A run in an ideal world, with a usable configuration, returns
    normally, having put one item per batch and then the sentinel. *)
Lemma main_ideal cfg :
  usable cfg ->
  snd (main W cfg) = Ok tt
  /\ puts_of (fst (main W cfg))
     = map (fun chunk =>
              Some (item_of summary_text prompt_text
                      (video_summary_prompt cfg) chunk))
         (batch_sampler (Z.to_nat (batch_size cfg)) samples [])
       ++ [None].
Proof.
  intros (Hw & Hb & Ha & Hp).
  unfold main, load_summary_model, load_prompt_gen_model.
  fold (summary_engine cfg). fold (prompt_gen_engine cfg).
  cbv zeta. rewrite Hp.
  rewrite (prepare_dataloader_ideal Hw Hb).
  unfold ThreadPoolExecutor.
  destruct (Z.leb_spec (num_artifact_workers cfg) 0); [lia|].
  set (chunks := batch_sampler (Z.to_nat (batch_size cfg)) samples []).
  pose proof (summarize_all_ideal cfg (video_summary_prompt cfg) chunks 0 [])
    as H1.
  pose proof (summarize_all_trace W (summary_engine cfg)
                {| max_tokens := max_summary_tokens cfg |}
                (video_summary_prompt cfg)
                (map (fun chunk => Ok (collate_fn chunk)) chunks) 0 []) as T1.
  simpl.
  destruct (summarize_all _ _ _ _ _ _ _) as [t1 r1]. simpl in H1, T1.
  subst r1. simpl.
  pose proof (generate_all_ideal cfg (video_summary_prompt cfg) chunks 0)
    as H2.
  cbv zeta in H2.
  destruct (generate_all _ _ _ _ _ _) as [t2 r2]. simpl in H2.
  destruct H2 as [-> H2]. simpl. split; [reflexivity|].
  rewrite !puts_of_app. rewrite (puts_of_quiet (chat_quiet T1)).
  simpl. rewrite H2, app_nil_r. reflexivity.
Qed.

End Ideal.

(** ** Lines of the output files *)

Section OutputFiles.





(** Between the submission of the writer and the [finally] block the
    main thread only puts real items, apart from what leaves the queue
    and the writer alone. *)
Lemma body_shape_events cfg body :
  body_shape cfg body ->
  Forall (fun e => quiet e = true \/ exists item, e = EvPut (Some item)) body.
Proof.
  intros (stage1 & H1 & Hb).
  assert (Hq : forall l, Forall (fun e => quiet e = true) l ->
                         Forall (fun e => quiet e = true
                                          \/ exists item, e = EvPut (Some item))
                           l).
  { intros l. apply Forall_impl. auto. }
  destruct Hb as [(n & _ & ->)|(stage2 & H2 & ->)].
  - apply Forall_app. split; apply Hq;
      [exact (chat_quiet H1) | apply barrier_prefix_quiet].
  - apply Forall_app. split; [apply Hq; exact (chat_quiet H1)|].
    apply Forall_app. split; [apply Hq; apply barrier_quiet|].
    revert H2. apply Forall_impl.
    intros e [(i & c & ->)|(item & ->)]; [left; reflexivity | right; eauto].
Qed.



End OutputFiles.




(** ** The queue between the two threads *)

Section QueueSize.

Lemma body_shape_not_in cfg body e :
  body_shape cfg body -> quiet e = false -> (forall item, e <> EvPut (Some item)) ->
  ~ In e body.
Proof.
  intros Hb Hq Hp Hin. pose proof (body_shape_events Hb) as H.
  rewrite Forall_forall in H. destruct (H e Hin) as [Hq'|(item & ->)].
  - congruence.
  - now apply (Hp item).
Qed.

(** The one queue of a run is made without bound. *)
Lemma queue_maxsize (w : World) (cfg : Config) (m : Z) :
  In (EvQueue m) (fst (main w cfg)) -> m = 0%Z.
Proof.
  intros Hin.
  destruct (main_shape w cfg) as [[Ht _]|[[Ht _]|(body & Hb & Ht)]].
  - rewrite Ht in Hin. simpl in Hin.
    destruct Hin as [H|[]]; discriminate.
  - rewrite Ht in Hin. simpl in Hin.
    destruct Hin as [H|[H|[]]]; [discriminate | now inversion H].
  - assert (Hbody : ~ In (EvQueue m) body).
    { apply (body_shape_not_in Hb); [reflexivity | discriminate]. }
    destruct Ht as [[Ht _]|[Ht _]]; rewrite Ht in Hin; simpl in Hin;
      destruct Hin as [H|[H|[H|Hin]]]; try discriminate;
      try (now inversion H);
      apply in_app_or in Hin; destruct Hin as [Hin|Hin]; try contradiction;
      simpl in Hin; intuition discriminate.
Qed.

(** In a run that submits the writer, everything the main thread puts
    can be waiting in the queue at once: the main thread may reach its
    shutdown before the writer has taken a single item. *)
Lemma all_puts_can_wait (w : World) (cfg : Config) (fs : Files) :
  let t := fst (main w cfg) in
  In EvSubmit t ->
  exists s,
    reachable (initial t fs) s /\ waiting s = puts_of t /\ files s = fs.
Proof.
  intros t Hsub.
  destruct (main_shape w cfg) as [[Ht _]|[[Ht _]|(body & Hb & Ht)]].
  - exfalso. fold t in Ht. rewrite Ht in Hsub. simpl in Hsub.
    intuition discriminate.
  - exfalso. fold t in Ht. rewrite Ht in Hsub. simpl in Hsub.
    intuition discriminate.
  - set (pre := [EvLLM (summary_engine cfg); EvQueue 0; EvSubmit] ++ body
                  ++ [EvPut None]).
    assert (Hdec : exists tail, t = pre ++ EvShutdown :: tail
                                /\ puts_of tail = []).
    { fold t in Ht. destruct Ht as [[Ht _]|[Ht _]].
      - exists []. split; [|reflexivity]. rewrite Ht. unfold pre.
        now rewrite <- !app_assoc.
      - exists [EvResult]. split; [|reflexivity]. rewrite Ht. unfold pre.
        now rewrite <- !app_assoc. }
    destruct Hdec as (tail & Hdec & Htail).
    destruct (body_shape_producing Hb) as [Hc _].
    assert (Hpre : conforms NoQueue pre = Some Draining).
    { unfold pre. simpl. rewrite conforms_app, Hc. reflexivity. }
    assert (Hno : ~ In EvShutdown pre).
    { unfold pre. intros Hin. simpl in Hin.
      destruct Hin as [H|[H|[H|Hin]]]; try discriminate.
      apply in_app_or in Hin. destruct Hin as [Hin|Hin].
      - revert Hin. apply (body_shape_not_in Hb); [reflexivity | discriminate].
      - simpl in Hin. intuition discriminate. }
    destruct (@main_only_spec pre NoQueue Draining (EvShutdown :: tail)
                (initial t fs) [])
      as (_ & _ & Hw & Hf); auto.
    { simpl. now repeat split. }
    exists (main_only (List.length pre) (initial t fs)).
    split; [apply reachable_main_only; constructor|].
    split; [|exact Hf].
    rewrite Hw. simpl waiting. rewrite Hdec, puts_of_app. simpl app.
    change (puts_of (EvShutdown :: tail)) with (puts_of tail).
    now rewrite Htail, app_nil_r.
Qed.

Lemma batch_sampler_one {A} (l : list A) :
  batch_sampler 1 l [] = map (fun a => [a]) l.
Proof. induction l as [|a l IH]; simpl; [reflexivity | now rewrite IH]. Qed.

Lemma usable_config_1 : usable config_1.
Proof. unfold usable. simpl. repeat split; lia. Qed.

(** With [n] videos and batches of one, [n] real items and the sentinel
    can be waiting at once. *)
Lemma many_videos_wait (n : nat) :
  exists s,
    reachable (initial (fst (main (many_videos n) config_1)) no_files) s
    /\ List.length (waiting s) = n + 1.
Proof.
  destruct (main_ideal (repeat (demo_sample "v.mp4") n)
              (fun _ => "A cat sits.") (fun _ => quoted_cat) usable_config_1)
    as [Hr Hp].
  fold (many_videos n) in Hr, Hp.
  assert (Hsub : In EvSubmit (fst (main (many_videos n) config_1))).
  { destruct (main_conforms (many_videos n) config_1)
      as [(_ & _ & _ & Hbad)|(H & _)]; [|exact H].
    rewrite Hr in Hbad. discriminate. }
  destruct (all_puts_can_wait (many_videos n) config_1 no_files Hsub)
    as (s & Hreach & Hw & _).
  exists s. split; [exact Hreach|].
  rewrite Hw, Hp, length_app, length_map. simpl.
  rewrite batch_sampler_one, length_map, repeat_length. reflexivity.
Qed.

End QueueSize.

(** C6, as the claim states it, fails: the queue is made by
    [queue.Queue()], with no maximum size, and no constant bounds the
    number of items that wait in it. *)
Lemma output_queue_has_no_bound :
  In (EvQueue 0) (fst (main demo_world demo_config))
  /\ full {| maxsize := 0; items := repeat None 1000 |} = false
  /\ ~ (exists c : nat,
          forall w cfg fs s,
            reachable (initial (fst (main w cfg)) fs) s ->
            List.length (waiting s) <= c).
Proof.
  split; [vm_compute; tauto|]. split; [reflexivity|].
  intros [c Hc].
  destruct (many_videos_wait c) as (s & Hreach & Hlen).
  specialize (Hc _ _ _ _ Hreach). lia.
Qed.

(** C6, amended: the queue between the inference loop and the writer is
    made without a maximum size.  A [put] never waits, whatever the
    queue holds; everything a run puts may be waiting at once, so the
    number of waiting items is bounded by the number of stage-2 batches
    of the run plus one, and by no constant.  What is finite is the wait
    of each [get] of the writer: 5 seconds. *)
Theorem output_queue_is_unbounded :
  (forall w cfg m, In (EvQueue m) (fst (main w cfg)) -> m = 0%Z)
  /\ (forall held item,
        put {| maxsize := 0; items := held |} item
        = Some {| maxsize := 0; items := held ++ [item] |})
  /\ (forall w cfg fs,
        In EvSubmit (fst (main w cfg)) ->
        exists s,
          reachable (initial (fst (main w cfg)) fs) s
          /\ waiting s = puts_of (fst (main w cfg)))
  /\ (forall w cfg fs s,
        reachable (initial (fst (main w cfg)) fs) s ->
        List.length (waiting s) <= List.length (puts_of (fst (main w cfg))))
  /\ (forall n,
        exists s,
          reachable (initial (fst (main (many_videos n) config_1)) no_files) s
          /\ List.length (waiting s) = n + 1)
  /\ get_timeout = Some 5%Z.
Proof.
  split; [apply queue_maxsize|]. split; [reflexivity|]. split; [|split].
  - intros w cfg fs Hsub.
    destruct (all_puts_can_wait w cfg fs Hsub) as (s & Hr & Hw & _).
    exists s. now split.
  - intros w cfg fs s Hr.
    assert (Hfin : exists final,
               conforms NoQueue (fst (main w cfg)) = Some final).
    { destruct (main_conforms w cfg) as [(_ & [H|H] & _)|(_ & H & _)];
        eauto. }
    destruct Hfin as (final & Hfin).
    destruct (invariant_reachable Hfin Hr) as (ph & consumed & _ & Hp & _).
    rewrite Hp, !length_app. lia.
  - split; [apply many_videos_wait | reflexivity].
Qed.

(** In the run of [demo_world] all three puts can be waiting at once. *)
Lemma output_queue_is_unbounded_witness :
  exists s,
    reachable (initial (fst (main demo_world demo_config)) no_files) s
    /\ waiting s = puts_of (fst (main demo_world demo_config)).
Proof.
  destruct output_queue_is_unbounded as (_ & _ & H & _).
  apply (H demo_world demo_config no_files).
  vm_compute. tauto.
Defined.

(** ** Ten videos in batches of four *)

Section TenVideos.

Lemma batch_sampler_concat {A} (n : nat) (l : list A) :
  forall acc, List.concat (batch_sampler n l acc) = acc ++ l.
Proof.
  induction l as [|a l IH]; intros acc; simpl.
  - destruct acc; simpl; now rewrite ?app_nil_r.
  - destruct (List.length (acc ++ [a]) =? n)%nat; simpl.
    + rewrite (IH []). simpl. now rewrite <- app_assoc.
    + rewrite IH. now rewrite <- app_assoc.
Qed.


Lemma run_pipeline_reachable (w : World) (cfg : Config) (fs : Files) :
  reachable (initial (fst (main w cfg)) fs) (fst (run_pipeline w cfg fs)).
Proof.
  unfold run_pipeline. destruct (main w cfg) as [t r]. simpl.
  apply reachable_run. constructor.
Qed.


End TenVideos.




(** * Further properties of the file *)

(** ** Text cleanup and templates *)

Section CleanupAndTemplates.

Lemma append_last_inj (s s' : string) (b b' : ascii) :
  (s ++ String b EmptyString)%string = (s' ++ String b' EmptyString)%string ->
  s = s' /\ b = b'.
Proof.
  revert s'. induction s as [|c s IH]; intros s' H.
  - destruct s' as [|c' s']; simpl in H.
    + inversion H. now split.
    + inversion H. destruct s'; discriminate.
  - destruct s' as [|c' s']; simpl in H.
    + inversion H. destruct s; discriminate.
    + inversion H. destruct (IH s' H2) as [-> ->]. now split.
Qed.

Lemma format_loop_brace_free args (s : string) :
  brace_free s = true ->
  forall an_state an_field_number out,
    format_loop args s InText an_state an_field_number out
    = Some (Ok (out ++ s)%string).
Proof.
  induction s as [|c s IH]; intros Hb an_state an_field_number out.
  - simpl. now rewrite append_nil_r.
  - simpl in Hb. apply andb_prop in Hb. destruct Hb as [Hb Hs].
    apply andb_prop in Hb. destruct Hb as [H1 H2].
    apply negb_true_iff in H1, H2.
    simpl. rewrite H1, H2. rewrite IH by exact Hs.
    now rewrite append_assoc.
Qed.

End CleanupAndTemplates.

(** X1: stripping undoes quoting.  For every text [s], the text [s]
    between two quotation marks is cleaned up to [s]; the two characters
    removed are not looked at, so the same holds between any two
    characters [a] and [b]. *)
Theorem strip_quotes_undoes_quoting (s : string) (a b : ascii) :
  strip_quotes (DQ ++ s ++ DQ) = s
  /\ strip_quotes (String a (s ++ String b EmptyString)) = s.
Proof.
  assert (H : forall a b,
             strip_quotes (String a (s ++ String b EmptyString)) = s).
  { intros x y.
    destruct (@strip_quotes_long (String x (s ++ String y EmptyString)))
      as [(a' & b' & Heq) _].
    - simpl. rewrite length_append. simpl. lia.
    - inversion Heq as [[Ha Hs]]. symmetry in Hs.
      now destruct (append_last_inj _ _ _ _ Hs). }
  split; [apply (H dquote dquote) | apply H].
Qed.

(** X2: with a prompt-generation template that holds no brace, every
    conversation of a batch carries the template itself as its user
    text: the summaries do not appear in the requests at all. *)
Theorem brace_free_template_drops_summaries
    (w : World) (batch : VideoData) (template : string) :
  brace_free template = true ->
  create_prompt_generation_conversations w batch (Some template)
  = Ok (map (fun _ => prompt_generation_conversation template)
          (summary batch)).
Proof.
  intros Hb.
  assert (Hf : forall s, format w template [ArgStr s; ArgInt 20] = Ok template).
  { intros s. unfold format, py_format.
    now rewrite (format_loop_brace_free _ template Hb). }
  unfold create_prompt_generation_conversations.
  pose proof (prompt_generation_loop_spec w template (summary batch) []) as H.
  rewrite (rmap_all_ok _ (fun _ => template)) in H by exact Hf.
  destruct (prompt_generation_loop _ _ _ _) as [convs|e]; [|discriminate].
  destruct H as [texts [Ht Hc]]. inversion Ht; subst.
  simpl. now rewrite map_map.
Qed.

(** With [fixed_template], two different summaries give the same two
    conversations. *)
Lemma brace_free_template_drops_summaries_witness :
  create_prompt_generation_conversations empty_world
    {| item_filename := [ "a.mp4"; "b.mp4" ];
       summary := [ "A cat sits."; "A dog runs." ] |}
    (Some fixed_template)
  = Ok [ prompt_generation_conversation fixed_template;
         prompt_generation_conversation fixed_template ].
Proof.
  apply (brace_free_template_drops_summaries empty_world
           {| item_filename := [ "a.mp4"; "b.mp4" ];
              summary := [ "A cat sits."; "A dog runs." ] |}
           fixed_template).
  reflexivity.
Defined.

(** ** Batches of the loader *)

Section Batching.

Lemma batch_sampler_sizes {A} (n : nat) (l : list A) :
  0 < n ->
  forall acc,
    List.length acc < n ->
    Forall (fun b => 1 <= List.length b <= n) (batch_sampler n l acc).
Proof.
  intros Hn. induction l as [|a l IH]; intros acc Hacc; simpl.
  - destruct (Nat.ltb_spec 0 (List.length acc)); repeat constructor; lia.
  - rewrite length_app. simpl.
    destruct (Nat.eqb_spec (List.length acc + 1) n) as [Hfull|Hnot].
    + constructor; [rewrite length_app; simpl; lia|].
      apply IH. simpl. lia.
    + apply IH. rewrite length_app. simpl. lia.
Qed.

Lemma batch_sampler_full {A} (n : nat) (l : list A) :
  forall acc i b,
    nth_error (batch_sampler n l acc) i = Some b ->
    S i < List.length (batch_sampler n l acc) ->
    List.length b = n.
Proof.
  induction l as [|a l IH]; intros acc i b Hi Hlen; simpl in *.
  - destruct (0 <? List.length acc)%nat; simpl in Hlen; lia.
  - destruct (Nat.eqb_spec (List.length (acc ++ [a])) n) as [Hfull|Hnot].
    + destruct i as [|i]; simpl in *.
      * injection Hi as <-. exact Hfull.
      * apply (IH [] i b Hi). lia.
    + now apply (IH (acc ++ [a]) i b).
Qed.

Lemma batch_sampler_count {A} (n : nat) (l : list A) :
  0 < n ->
  forall acc,
    List.length acc < n ->
    List.length (batch_sampler n l acc)
    = (List.length acc + List.length l + n - 1) / n.
Proof.
  intros Hn. induction l as [|a l IH]; intros acc Hacc; simpl.
  - destruct (Nat.ltb_spec 0 (List.length acc)); simpl.
    + apply (Nat.div_unique _ n 1 (List.length acc - 1)); lia.
    + symmetry. apply Nat.div_small. lia.
  - rewrite length_app. simpl.
    destruct (Nat.eqb_spec (List.length acc + 1) n) as [Hfull|Hnot].
    + simpl. rewrite (IH []) by (simpl; lia). simpl.
      replace (List.length acc + S (List.length l) + n - 1)
        with (1 * n + (List.length l + n - 1)) by lia.
      rewrite Nat.div_add_l by lia. lia.
    + rewrite IH by (rewrite length_app; simpl; lia).
      rewrite length_app. simpl. f_equal. lia.
Qed.

Lemma prepare_dataloader_ok (w : World) (samples : list Sample)
    (workers size : Z) :
  VideoDataset w = Ok (map Ok samples) ->
  (0 < workers)%Z -> (0 < size)%Z ->
  prepare_dataloader w workers size
  = Ok (map (fun chunk => Ok (collate_fn chunk))
          (batch_sampler (Z.to_nat size) samples [])).
Proof.
  intros Hd Hw Hs. unfold prepare_dataloader. rewrite Hd. simpl.
  destruct (Z.leb_spec workers 0); [lia|].
  destruct (Z.leb_spec size 0); [lia|].
  f_equal. change (@nil (result Sample)) with (map (@Ok Sample) []).
  rewrite batch_sampler_map, map_map.
  apply map_ext. intros chunk. apply fetch_ok.
Qed.

End Batching.

(** X3: when every sample can be read, the worker count and the batch
    size being positive, the loader yields the samples of the data set
    in order, each in exactly one batch; no batch is empty, every batch
    but the last holds [batch_size] samples, and there are
    [ceil(n / batch_size)] batches.  Each batch has as many videos as
    filenames, and the summarization formatter builds as many
    conversations from it. *)
Theorem loader_batches_partition_the_data_set
    (w : World) (samples : list Sample) (workers size : Z) :
  VideoDataset w = Ok (map Ok samples) ->
  (0 < workers)%Z -> (0 < size)%Z ->
  exists chunks,
    prepare_dataloader w workers size
    = Ok (map (fun chunk => Ok (collate_fn chunk)) chunks)
    /\ List.concat chunks = samples
    /\ List.concat (map (fun chunk => batch_filename (collate_fn chunk)) chunks)
       = map filename samples
    /\ Forall (fun chunk => 1 <= List.length chunk <= Z.to_nat size) chunks
    /\ (forall i chunk,
          nth_error chunks i = Some chunk -> S i < List.length chunks ->
          List.length chunk = Z.to_nat size)
    /\ List.length chunks
       = (List.length samples + Z.to_nat size - 1) / Z.to_nat size
    /\ (forall chunk prompt,
          List.length (videos (collate_fn chunk))
          = List.length (batch_filename (collate_fn chunk))
          /\ List.length
               (create_video_summary_conversations (collate_fn chunk) prompt)
             = List.length (batch_filename (collate_fn chunk))).
Proof.
  intros Hd Hw Hs.
  exists (batch_sampler (Z.to_nat size) samples []).
  assert (Hn : 0 < Z.to_nat size) by lia.
  split; [now apply prepare_dataloader_ok|].
  split; [apply batch_sampler_concat|].
  split.
  { change (fun chunk => batch_filename (collate_fn chunk))
      with (fun chunk : list Sample => map filename chunk).
    rewrite <- concat_map. f_equal. apply batch_sampler_concat. }
  split; [apply batch_sampler_sizes; simpl; lia|].
  split; [apply batch_sampler_full|].
  split; [rewrite batch_sampler_count by (simpl; lia); reflexivity|].
  intros chunk prompt. simpl.
  rewrite create_video_summary_conversations_map. simpl.
  now rewrite !length_map.
Qed.

(** The ten videos of [ten_samples] in batches of four: three batches. *)
Lemma loader_batches_partition_the_data_set_witness :
  exists chunks,
    prepare_dataloader one_line_world 4 4
    = Ok (map (fun chunk => Ok (collate_fn chunk)) chunks)
    /\ List.concat chunks = ten_samples
    /\ List.length chunks = 3.
Proof.
  destruct (@loader_batches_partition_the_data_set one_line_world
              ten_samples 4 4)
    as (chunks & H1 & H2 & _ & _ & _ & H6 & _).
  - reflexivity.
  - lia.
  - lia.
  - exists chunks. split; [exact H1|]. split; [exact H2|].
    rewrite H6. reflexivity.
Defined.

(** ** The stages of [main], case by case *)

Section MainCases.

Variable w : World.
Variable cfg : Config.

Let summary_params : SamplingParams :=
  {| max_tokens := max_summary_tokens cfg |}.
Let prompt_gen_params : SamplingParams :=
  {| max_tokens := max_prompt_gen_tokens cfg |}.

(** The run of stage 1 on a loader, and of stage 2 on its result. *)
Let stage1_of (dataloader : list (result Batch)) : M (list VideoData) :=
  summarize_all w (summary_engine cfg) summary_params
    (video_summary_prompt cfg) 0 dataloader [].
Let stage2_of (video_data : list VideoData) : M unit :=
  generate_all w (prompt_gen_engine cfg) prompt_gen_params
    (prompt_gen_prompt cfg) 0 video_data.

(** A run that does not get as far as the writer. *)
Lemma main_not_started :
  LLM w (summary_engine cfg) <> Ok tt
  \/ is_ok (prepare_dataloader w (num_data_workers cfg) (batch_size cfg)) = false
  \/ (num_artifact_workers cfg <= 0)%Z
  \/ makedirs w <> Ok tt ->
  ~ In EvSubmit (fst (main w cfg)).
Proof.
  intros H.
  unfold main, load_summary_model. fold (summary_engine cfg). cbv zeta.
  destruct (LLM w (summary_engine cfg)) as [[]|e]; simpl;
    [|intuition discriminate].
  destruct (prepare_dataloader w (num_data_workers cfg) (batch_size cfg))
    as [dataloader|e]; simpl; [|intuition discriminate].
  unfold ThreadPoolExecutor.
  destruct (Z.leb_spec (num_artifact_workers cfg) 0); simpl;
    [intuition discriminate|].
  destruct (makedirs w) as [[]|e]; simpl; [|intuition discriminate].
  exfalso. destruct H as [H|[H|[H|H]]]; try congruence; try discriminate.
  lia.
Qed.

(** A run that submits the writer, by how far it gets: stage 1 fails;
    or the teardown or the load of the stage-2 engine fails; or stage 2
    runs, to its end or not. *)
Lemma main_started (dataloader : list (result Batch)) :
  LLM w (summary_engine cfg) = Ok tt ->
  prepare_dataloader w (num_data_workers cfg) (batch_size cfg)
  = Ok dataloader ->
  (0 < num_artifact_workers cfg)%Z ->
  makedirs w = Ok tt ->
  match snd (stage1_of dataloader) with
  | Raise e =>
      main w cfg
      = (head cfg ++ fst (stage1_of dataloader) ++ drain, Raise e)
  | Ok video_data =>
      match gc_collect w, empty_cache w, LLM w (prompt_gen_engine cfg) with
      | Ok _, Ok _, Ok _ =>
          main w cfg
          = (head cfg ++ fst (stage1_of dataloader) ++ barrier cfg
               ++ fst (stage2_of video_data) ++ drain
               ++ match snd (stage2_of video_data) with
                  | Ok _ => [EvResult]
                  | Raise _ => []
                  end,
             snd (stage2_of video_data))
      | Raise e, _, _ =>
          main w cfg
          = (head cfg ++ fst (stage1_of dataloader)
               ++ firstn 2 (barrier cfg) ++ drain, Raise e)
      | Ok _, Raise e, _ =>
          main w cfg
          = (head cfg ++ fst (stage1_of dataloader)
               ++ firstn 3 (barrier cfg) ++ drain, Raise e)
      | Ok _, Ok _, Raise e =>
          main w cfg
          = (head cfg ++ fst (stage1_of dataloader) ++ barrier cfg ++ drain,
             Raise e)
      end
  end.
Proof.
  intros HL Hd Ha Hm.
  unfold stage1_of, stage2_of, summary_params, prompt_gen_params.
  unfold main, load_summary_model, load_prompt_gen_model.
  fold (summary_engine cfg). fold (prompt_gen_engine cfg). cbv zeta.
  rewrite HL, Hd, Hm. unfold ThreadPoolExecutor.
  destruct (Z.leb_spec (num_artifact_workers cfg) 0); [lia|]. simpl.
  destruct (summarize_all _ _ _ _ _ _ _) as [stage1 [video_data|e]]; simpl.
  2:{ now rewrite <- ?app_assoc. }
  destruct (gc_collect w) as [[]|e]; simpl;
    [|f_equal; now rewrite <- ?app_assoc].
  destruct (empty_cache w) as [[]|e]; simpl;
    [|f_equal; now rewrite <- ?app_assoc].
  destruct (LLM w (prompt_gen_engine cfg)) as [[]|e]; simpl;
    [|f_equal; now rewrite <- ?app_assoc].
  destruct (generate_all _ _ _ _ _ _) as [stage2 [[]|e]]; simpl;
    f_equal; rewrite <- ?app_assoc; simpl; now rewrite <- ?app_assoc.
Qed.

End MainCases.

(** X4: a worker count or a batch size below one is only noticed once
    the summary engine has been loaded, and a writer count below one
    once the queue exists too; in both cases [main] raises [ValueError]
    before any writer is submitted. *)
Theorem bad_arguments_fail_after_the_model_load
    (w : World) (cfg : Config) (dataset : list (result Sample)) :
  LLM w (summary_engine cfg) = Ok tt ->
  VideoDataset w = Ok dataset ->
  ((num_data_workers cfg <= 0 \/ batch_size cfg <= 0)%Z ->
   main w cfg = ([EvLLM (summary_engine cfg)], Raise ValueError))
  /\ ((0 < num_data_workers cfg)%Z -> (0 < batch_size cfg)%Z ->
      (num_artifact_workers cfg <= 0)%Z ->
      main w cfg
      = ([EvLLM (summary_engine cfg); EvQueue 0], Raise ValueError)).
Proof.
  intros HL Hd.
  unfold main, load_summary_model. fold (summary_engine cfg). cbv zeta.
  rewrite HL. unfold prepare_dataloader. rewrite Hd. simpl.
  split.
  - intros H.
    destruct (Z.leb_spec (num_data_workers cfg) 0); [reflexivity|].
    destruct (Z.leb_spec (batch_size cfg) 0); [reflexivity | lia].
  - intros Hw Hb Ha.
    destruct (Z.leb_spec (num_data_workers cfg) 0); [lia|].
    destruct (Z.leb_spec (batch_size cfg) 0); [lia|]. simpl.
    unfold ThreadPoolExecutor.
    destruct (Z.leb_spec (num_artifact_workers cfg) 0); [reflexivity | lia].
Qed.

(** Without loader workers the run of [demo_world] stops after the
    load of the summary engine. *)
Lemma bad_arguments_fail_after_the_model_load_witness :
  main demo_world no_worker_config
  = ([EvLLM (summary_engine no_worker_config)], Raise ValueError).
Proof.
  destruct (@bad_arguments_fail_after_the_model_load demo_world
              no_worker_config
              (map Ok [ demo_sample "a.mp4"; demo_sample "b.mp4";
                        demo_sample "c.mp4" ]))
    as [H _].
  - reflexivity.
  - reflexivity.
  - apply H. left. simpl. lia.
Defined.

Section EarlyFailure.

Lemma protocol_rank ph e ph' :
  protocol ph e = Some ph' -> phase_rank ph <= phase_rank ph'.
Proof.
  destruct e as [e0 | m | | e1 i c | e2 | | | item | |], ph; simpl; intros H;
    try discriminate; try (inversion H; subst; simpl; lia);
    try (destruct (m <=? 0)%Z; inversion H; simpl; lia);
    destruct item; inversion H; simpl; lia.
Qed.

Lemma conforms_rank t :
  forall ph ph', conforms ph t = Some ph' -> phase_rank ph <= phase_rank ph'.
Proof.
  induction t as [|e t IH]; intros ph ph' H; simpl in H.
  - inversion H. lia.
  - destruct (protocol ph e) as [ph1|] eqn:Hp; [|discriminate].
    apply protocol_rank in Hp. apply IH in H. lia.
Qed.

End EarlyFailure.

(** X5: a run that does not submit the writer raises, puts nothing on
    the queue, and leaves the output files as they were: in every state
    the run can reach the writer has not started and the files are
    those of the start. *)
Theorem run_without_writer_touches_nothing
    (w : World) (cfg : Config) (fs0 : Files) (s : Sys) :
  ~ In EvSubmit (fst (main w cfg)) ->
  reachable (initial (fst (main w cfg)) fs0) s ->
  is_ok (snd (main w cfg)) = false
  /\ puts_of (fst (main w cfg)) = []
  /\ writer s = NotStarted /\ waiting s = [] /\ files s = fs0.
Proof.
  intros Hno Hr.
  destruct (main_conforms w cfg) as [(_ & Hc & Hp & Hbad)|(Hin & _)];
    [|contradiction].
  split; [exact Hbad|]. split; [exact Hp|].
  assert (Hfin : exists final,
             conforms NoQueue (fst (main w cfg)) = Some final
             /\ phase_rank final <= 1).
  { destruct Hc as [Hc|Hc]; eexists; (split; [exact Hc | simpl; lia]). }
  destruct Hfin as (final & Hfin & Hrank).
  destruct (invariant_reachable Hfin Hr) as (ph & consumed & Hc' & Hp' & Hf & Hok).
  apply conforms_rank in Hc'.
  rewrite Hp in Hp'. symmetry in Hp'.
  apply app_eq_nil in Hp'. destruct Hp' as [Hcons Hrest].
  apply app_eq_nil in Hrest. destruct Hrest as [Hwait _].
  subst consumed. simpl in Hf.
  destruct ph; simpl in Hc'; try lia.
  - destruct Hok as (_ & Hw & _). now repeat split.
  - destruct Hok as (_ & Hw & _). now repeat split.
Qed.

(** In [no_engine_world] the summary engine cannot be loaded: nothing
    is touched. *)
Lemma run_without_writer_touches_nothing_witness :
  files (run 5 (initial (fst (main no_engine_world demo_config)) no_files))
  = no_files.
Proof.
  apply (@run_without_writer_touches_nothing no_engine_world demo_config
           no_files).
  - vm_compute. intuition discriminate.
  - apply reachable_run. constructor.
Defined.

(** ** A failure in stage 1 *)

Section Stage1Failure.

(** Stage 1 only succeeds when every batch of the loader could be read;
    its result then holds one item per batch, with the filenames of
    that batch, in order. *)
Lemma summarize_all_ok w eng params prompt :
  forall dataloader idx video_data video_data',
    snd (summarize_all w eng params prompt idx dataloader video_data)
    = Ok video_data' ->
    Forall (fun next => is_ok next = true) dataloader
    /\ map item_filename video_data'
       = map item_filename video_data
           ++ map batch_filename (ok_batches dataloader)
    /\ List.length (ok_batches dataloader) = List.length dataloader.
Proof.
  induction dataloader as [|next rest IH];
    intros idx video_data video_data' H.
  - simpl in H. inversion H; subst. simpl.
    rewrite app_nil_r. now repeat split.
  - simpl summarize_all in H. destruct next as [batch|e]; simpl in H;
      [|discriminate].
    destruct (chat w eng params idx _) as [video_summaries|e]; simpl in H;
      [|discriminate].
    destruct (rmap first_text video_summaries) as [summaries|e]; simpl in H;
      [|discriminate].
    match type of H with
    | context [summarize_all ?a ?b ?c ?d ?e ?f ?g] =>
        specialize (IH e g video_data');
        destruct (summarize_all a b c d e f g) as [t r]
    end.
    simpl in H, IH. destruct (IH H) as (Hall & Hnames & Hlen).
    split; [constructor; [reflexivity | exact Hall]|].
    split.
    + rewrite Hnames, map_app. simpl. now rewrite <- app_assoc.
    + simpl. now rewrite Hlen.
Qed.

Lemma rmap_with_failure {A} (chunk : list (result A)) (e : exn) :
  In (Raise e) chunk ->
  is_ok (rmap (fun sample => sample) chunk) = false.
Proof.
  induction chunk as [|x chunk IH]; intros Hin; [contradiction|].
  simpl. destruct x as [a|e']; [|reflexivity]. simpl.
  destruct Hin as [H|Hin]; [discriminate|].
  specialize (IH Hin).
  destruct (rmap _ chunk); [discriminate | reflexivity].
Qed.

Lemma fetch_with_failure (chunk : list (result Sample)) (e : exn) :
  In (Raise e) chunk -> is_ok (fetch chunk) = false.
Proof.
  intros Hin. unfold fetch.
  pose proof (@rmap_with_failure _ chunk e Hin) as H.
  destruct (rmap _ chunk); [discriminate | reflexivity].
Qed.

(** A sample that cannot be read makes one batch of the loader fail. *)
Lemma loader_with_failure w (dataset : list (result Sample)) e workers size :
  VideoDataset w = Ok dataset -> In (Raise e) dataset ->
  (0 < workers)%Z -> (0 < size)%Z ->
  exists dataloader,
    prepare_dataloader w workers size = Ok dataloader
    /\ ~ Forall (fun next => is_ok next = true) dataloader.
Proof.
  intros Hd Hin Hw Hs. unfold prepare_dataloader. rewrite Hd. simpl.
  destruct (Z.leb_spec workers 0); [lia|].
  destruct (Z.leb_spec size 0); [lia|].
  eexists. split; [reflexivity|].
  intros Hall. rewrite Forall_forall in Hall.
  pose proof (batch_sampler_concat (Z.to_nat size) dataset []) as Hcat.
  simpl in Hcat. rewrite <- Hcat in Hin. apply in_concat in Hin. destruct Hin as (chunk & Hc & Hx).
  specialize (Hall (fetch chunk) (in_map fetch _ _ Hc)).
  rewrite (@fetch_with_failure chunk e Hx) in Hall. discriminate.
Qed.

(** What a run is when its stage 1 fails. *)
Lemma stage1_failure_outcome w cfg dataloader fs0 :
  LLM w (summary_engine cfg) = Ok tt ->
  prepare_dataloader w (num_data_workers cfg) (batch_size cfg)
  = Ok dataloader ->
  (0 < num_artifact_workers cfg)%Z ->
  makedirs w = Ok tt ->
  is_ok (snd (summarize_all w (summary_engine cfg)
                {| max_tokens := max_summary_tokens cfg |}
                (video_summary_prompt cfg) 0 dataloader [])) = false ->
  is_ok (snd (main w cfg)) = false
  /\ puts_of (fst (main w cfg)) = [None]
  /\ ~ In (EvLLM (prompt_gen_engine cfg)) (fst (main w cfg))
  /\ forall s,
      reachable (initial (fst (main w cfg)) fs0) s -> main_todo s = [] ->
      writer s = Returned /\ files s = fs0.
Proof.
  intros HL Hd Ha Hm Hfail.
  pose proof (@main_started w cfg dataloader HL Hd Ha Hm) as Hmain.
  pose proof (summarize_all_trace w (summary_engine cfg)
                {| max_tokens := max_summary_tokens cfg |}
                (video_summary_prompt cfg) dataloader 0 []) as Htr.
  set (st := summarize_all w (summary_engine cfg)
               {| max_tokens := max_summary_tokens cfg |}
               (video_summary_prompt cfg) 0 dataloader []) in *.
  destruct st as [stage1 [video_data|e]]; simpl in Hfail, Htr, Hmain;
    [discriminate|].
  assert (Hputs : puts_of (fst (main w cfg)) = [None]).
  { rewrite Hmain. simpl.
    rewrite puts_of_app, (puts_of_quiet (chat_quiet Htr)). reflexivity. }
  split; [now rewrite Hmain|]. split; [exact Hputs|]. split.
  - rewrite Hmain. simpl. intros [H|[H|[H|Hin]]]; try discriminate.
    apply in_app_or in Hin. destruct Hin as [Hin|Hin].
    + rewrite Forall_forall in Htr.
      destruct (Htr _ Hin) as (i & c & Heq). discriminate.
    + simpl in Hin. intuition discriminate.
  - intros s Hr Hdone.
    assert (Hj : conforms NoQueue (fst (main w cfg)) = Some Joined).
    { destruct (main_conforms w cfg) as [(_ & _ & Hp & _)|(_ & H & _)];
        [|exact H].
      rewrite Hputs in Hp. discriminate. }
    destruct (finished_state Hj Hr Hdone) as (Hw & _ & Hf).
    split; [exact Hw|]. rewrite Hf, Hputs. reflexivity.
Qed.

End Stage1Failure.

(** X6: when stage 1 fails on any batch, be it the last one, the run
    writes nothing at all: the only item put on the queue is the
    sentinel, the stage-2 engine is never loaded, the exception goes on,
    and at the end of the run the output files are those of the start;
    the summaries of the batches that had succeeded are lost. *)
Theorem failed_stage1_writes_nothing
    (w : World) (cfg : Config) (dataloader : list (result Batch))
    (fs0 : Files) :
  LLM w (summary_engine cfg) = Ok tt ->
  prepare_dataloader w (num_data_workers cfg) (batch_size cfg)
  = Ok dataloader ->
  (0 < num_artifact_workers cfg)%Z ->
  makedirs w = Ok tt ->
  is_ok (snd (summarize_all w (summary_engine cfg)
                {| max_tokens := max_summary_tokens cfg |}
                (video_summary_prompt cfg) 0 dataloader [])) = false ->
  is_ok (snd (main w cfg)) = false
  /\ puts_of (fst (main w cfg)) = [None]
  /\ ~ In (EvLLM (prompt_gen_engine cfg)) (fst (main w cfg))
  /\ forall s,
      reachable (initial (fst (main w cfg)) fs0) s -> main_todo s = [] ->
      writer s = Returned /\ files s = fs0.
Proof. apply stage1_failure_outcome. Qed.

(** In [no_answer_world] the first request of stage 1 fails. *)
Lemma failed_stage1_writes_nothing_witness :
  puts_of (fst (main no_answer_world demo_config)) = [None].
Proof.
  apply (@failed_stage1_writes_nothing no_answer_world demo_config
           [ Ok (collate_fn [ demo_sample "a.mp4"; demo_sample "b.mp4" ]) ]
           no_files).
  - reflexivity.
  - reflexivity.
  - simpl. lia.
  - reflexivity.
  - reflexivity.
Defined.

(** X7: one video that cannot be read, anywhere in the data set, makes
    the whole run produce no output: stage 1 fails at its batch, the
    only item put is the sentinel, and the output files end as they
    started, also for the videos of the batches before it. *)
Theorem unreadable_video_leaves_no_output
    (w : World) (cfg : Config) (dataset : list (result Sample)) (e : exn)
    (fs0 : Files) :
  LLM w (summary_engine cfg) = Ok tt ->
  VideoDataset w = Ok dataset ->
  In (Raise e) dataset ->
  (0 < num_data_workers cfg)%Z -> (0 < batch_size cfg)%Z ->
  (0 < num_artifact_workers cfg)%Z ->
  makedirs w = Ok tt ->
  is_ok (snd (main w cfg)) = false
  /\ puts_of (fst (main w cfg)) = [None]
  /\ forall s,
      reachable (initial (fst (main w cfg)) fs0) s -> main_todo s = [] ->
      writer s = Returned /\ files s = fs0.
Proof.
  intros HL Hd Hin Hw Hb Ha Hm.
  destruct (@loader_with_failure w dataset e _ _ Hd Hin Hw Hb)
    as (dataloader & Hl & Hnot).
  assert (Hfail : is_ok (snd (summarize_all w (summary_engine cfg)
                                {| max_tokens := max_summary_tokens cfg |}
                                (video_summary_prompt cfg) 0 dataloader []))
                  = false).
  { destruct (snd (summarize_all _ _ _ _ _ _ _)) as [video_data|e'] eqn:Hs;
      [|reflexivity].
    exfalso. apply Hnot. now destruct (@summarize_all_ok _ _ _ _ _ _ _ _ Hs). }
  destruct (@stage1_failure_outcome w cfg dataloader fs0 HL Hl Ha Hm Hfail)
    as (H1 & H2 & _ & H4).
  split; [exact H1|]. split; [exact H2 | exact H4].
Qed.

(** In [unreadable_world] the third video cannot be read: with batches
    of two, the first batch is summarized and then lost. *)
Lemma unreadable_video_leaves_no_output_witness :
  puts_of (fst (main unreadable_world demo_config)) = [None]
  /\ List.length
       (requests_to "openbmb/MiniCPM-V-2_6"
          (fst (main unreadable_world demo_config))) = 1.
Proof.
  split; [|reflexivity].
  apply (@unreadable_video_leaves_no_output unreadable_world demo_config
           [ Ok (demo_sample "a.mp4"); Ok (demo_sample "b.mp4");
             Raise (Failure "cannot decode c.mp4") ]
           (Failure "cannot decode c.mp4") no_files).
  - reflexivity.
  - reflexivity.
  - simpl. auto.
  - simpl. lia.
  - simpl. lia.
  - simpl. lia.
  - reflexivity.
Defined.

(** ** Filenames across the two stages *)

Section Pairing.

(** Stage 2 puts one item per batch, for a first part of the batches,
    each with the filenames of its batch; for all of them when it
    returns normally. *)
Lemma generate_all_filenames w eng params prompt :
  forall video_data idx,
    let stage2 := generate_all w eng params prompt idx video_data in
    exists m,
      m <= List.length video_data
      /\ puts_of (fst stage2)
         = map Some (payloads (puts_of (fst stage2)))
      /\ map fst (payloads (puts_of (fst stage2)))
         = map item_filename (firstn m video_data)
      /\ (snd stage2 = Ok tt -> m = List.length video_data).
Proof.
  induction video_data as [|batch rest IH]; intros idx; cbv zeta.
  - exists 0. simpl. now repeat split.
  - cbn [generate_all].
    destruct (create_prompt_generation_conversations w batch prompt)
      as [conversations|e]; simpl.
    2:{ exists 0. simpl. repeat split; auto; [lia | discriminate]. }
    destruct (chat w eng params idx conversations) as [prompts|e]; simpl.
    2:{ exists 0. simpl. repeat split; auto; [lia | discriminate]. }
    destruct (rmap first_text prompts) as [texts|e]; simpl.
    2:{ exists 0. simpl. repeat split; auto; [lia | discriminate]. }
    specialize (IH (S idx)). cbv zeta in IH.
    destruct (generate_all w eng params prompt (S idx) rest) as [t r].
    simpl in *. destruct IH as (m & Hm & Hs & Hf & Hok).
    exists (S m). simpl. split; [lia|]. split; [now rewrite <- Hs|].
    split; [now rewrite Hf|]. intros Hr. now rewrite (Hok Hr).
Qed.

(** A run submits the writer only when everything before it went
    through. *)
Lemma submitted_run w cfg :
  In EvSubmit (fst (main w cfg)) ->
  LLM w (summary_engine cfg) = Ok tt
  /\ (exists dataloader,
        prepare_dataloader w (num_data_workers cfg) (batch_size cfg)
        = Ok dataloader)
  /\ (0 < num_artifact_workers cfg)%Z
  /\ makedirs w = Ok tt.
Proof.
  intros Hin.
  destruct (LLM w (summary_engine cfg)) as [[]|e] eqn:HL.
  2:{ exfalso. revert Hin. apply main_not_started. left. congruence. }
  destruct (prepare_dataloader w (num_data_workers cfg) (batch_size cfg))
    as [dataloader|e] eqn:Hd.
  2:{ exfalso. revert Hin. apply main_not_started. right. left.
      now rewrite Hd. }
  destruct (Z.leb_spec (num_artifact_workers cfg) 0) as [Ha|Ha].
  { exfalso. revert Hin. apply main_not_started. right. right. now left. }
  destruct (makedirs w) as [[]|e] eqn:Hm.
  2:{ exfalso. revert Hin. apply main_not_started. right. right. right.
      congruence. }
  split; [reflexivity|]. split; [now exists dataloader|]. now split.
Qed.

(** The puts of a run that submits the writer: the sentinel alone, or
    the puts of stage 2 on the result of stage 1, then the sentinel. *)
Lemma main_puts w cfg dataloader :
  In EvSubmit (fst (main w cfg)) ->
  prepare_dataloader w (num_data_workers cfg) (batch_size cfg)
  = Ok dataloader ->
  (puts_of (fst (main w cfg)) = [None] /\ is_ok (snd (main w cfg)) = false)
  \/ exists video_data,
       snd (summarize_all w (summary_engine cfg)
              {| max_tokens := max_summary_tokens cfg |}
              (video_summary_prompt cfg) 0 dataloader [])
       = Ok video_data
       /\ puts_of (fst (main w cfg))
          = puts_of (fst (generate_all w (prompt_gen_engine cfg)
                            {| max_tokens := max_prompt_gen_tokens cfg |}
                            (prompt_gen_prompt cfg) 0 video_data))
            ++ [None]
       /\ snd (main w cfg)
          = snd (generate_all w (prompt_gen_engine cfg)
                   {| max_tokens := max_prompt_gen_tokens cfg |}
                   (prompt_gen_prompt cfg) 0 video_data).
Proof.
  intros Hin Hd.
  destruct (submitted_run w cfg Hin) as (HL & _ & Ha & Hm).
  pose proof (@main_started w cfg dataloader HL Hd Ha Hm) as Hmain.
  pose proof (summarize_all_trace w (summary_engine cfg)
                {| max_tokens := max_summary_tokens cfg |}
                (video_summary_prompt cfg) dataloader 0 []) as Htr.
  set (st := summarize_all w (summary_engine cfg)
               {| max_tokens := max_summary_tokens cfg |}
               (video_summary_prompt cfg) 0 dataloader []) in *.
  destruct st as [stage1 [video_data|e]]; simpl in Htr, Hmain.
  2:{ left. rewrite Hmain. simpl.
      rewrite puts_of_app, (puts_of_quiet (chat_quiet Htr)). now split. }
  assert (Hq : puts_of stage1 = []) by exact (puts_of_quiet (chat_quiet Htr)).
  destruct (gc_collect w) as [[]|e].
  2:{ left. rewrite Hmain. simpl. rewrite puts_of_app, Hq. now split. }
  destruct (empty_cache w) as [[]|e].
  2:{ left. rewrite Hmain. simpl. rewrite puts_of_app, Hq. now split. }
  destruct (LLM w (prompt_gen_engine cfg)) as [[]|e].
  2:{ left. rewrite Hmain. simpl. rewrite puts_of_app, Hq. now split. }
  right. exists video_data. split; [reflexivity|].
  rewrite Hmain. simpl. split; [|reflexivity].
  rewrite puts_of_app, Hq. simpl. rewrite puts_of_app. f_equal.
  destruct (snd (generate_all _ _ _ _ _ _)); reflexivity.
Qed.

End Pairing.

(** X8: whatever the engines answer and wherever a run fails, the real
    items it puts on the queue are, in order, one per batch of the
    loader for a first part of the batches, each carrying the filenames
    of its batch; and when the run returns normally there is one for
    every batch.  So the k-th item written always names the videos of
    the k-th batch. *)
Theorem items_carry_the_filenames_of_their_batches
    (w : World) (cfg : Config) (dataloader : list (result Batch)) :
  prepare_dataloader w (num_data_workers cfg) (batch_size cfg)
  = Ok dataloader ->
  exists m,
    m <= List.length (ok_batches dataloader)
    /\ map fst (payloads (puts_of (fst (main w cfg))))
       = map batch_filename (firstn m (ok_batches dataloader))
    /\ (snd (main w cfg) = Ok tt ->
        m = List.length dataloader
        /\ List.length (ok_batches dataloader) = List.length dataloader).
Proof.
  intros Hd.
  destruct (main_conforms w cfg) as [(_ & _ & Hp & Hbad)|(Hin & _)].
  { exists 0. rewrite Hp. simpl. split; [lia|]. split; [reflexivity|].
    intros Hok. rewrite Hok in Hbad. discriminate. }
  destruct (main_puts w cfg Hin Hd) as [[Hp Hbad]|(video_data & Hs & Hp & Hr)].
  { exists 0. rewrite Hp. simpl. split; [lia|]. split; [reflexivity|].
    intros Hok. rewrite Hok in Hbad. discriminate. }
  destruct (@summarize_all_ok _ _ _ _ _ _ _ _ Hs) as (_ & Hnames & Hlen).
  simpl in Hnames.
  destruct (generate_all_filenames w (prompt_gen_engine cfg)
              {| max_tokens := max_prompt_gen_tokens cfg |}
              (prompt_gen_prompt cfg) video_data 0)
    as (m & Hm & _ & Hf & Hok).
  assert (Hvd : List.length video_data = List.length (ok_batches dataloader)).
  { rewrite <- (length_map item_filename), Hnames. apply length_map. }
  exists m. split; [lia|]. split.
  - rewrite Hp, payloads_app. simpl. rewrite app_nil_r, Hf.
    rewrite <- firstn_map, Hnames. now rewrite firstn_map.
  - intros Hmain. rewrite Hr in Hmain. specialize (Hok Hmain). lia.
Qed.

(** In the run of [demo_world], two batches and two items. *)
Lemma items_carry_the_filenames_of_their_batches_witness :
  map fst (payloads (puts_of (fst (main demo_world demo_config))))
  = [ [ "a.mp4"; "b.mp4" ]; [ "c.mp4" ] ].
Proof.
  destruct (@items_carry_the_filenames_of_their_batches demo_world
              demo_config
              [ Ok (collate_fn [ demo_sample "a.mp4"; demo_sample "b.mp4" ]);
                Ok (collate_fn [ demo_sample "c.mp4" ]) ])
    as (m & _ & Hf & Hok).
  - reflexivity.
  - destruct (Hok eq_refl) as [-> _]. exact Hf.
Defined.



(** ** Images per request *)

Section ImageBudget.

Lemma requests_to_app m (a b : list event) :
  requests_to m (a ++ b) = requests_to m a ++ requests_to m b.
Proof.
  induction a as [|e a IH]; [reflexivity|].
  destruct e; simpl; rewrite ?IH; try reflexivity.
  destruct (String.eqb (model e) m); simpl; now rewrite ?IH.
Qed.

Lemma requests_to_none m (t : list event) :
  Forall (fun e => forall eng idx c, e = EvChat eng idx c -> model eng <> m) t ->
  requests_to m t = [].
Proof.
  induction 1 as [|e t He _ IH]; [reflexivity|].
  destruct e; simpl; try exact IH.
  destruct (String.eqb_spec (model e) m) as [Heq|_]; [|exact IH].
  exfalso. now apply (He e idx conversations).
Qed.

(** The requests of stage 1 are built from batches of the loader. *)
Lemma summarize_all_requests w eng params prompt :
  forall dataloader idx video_data,
    Forall (fun conversations =>
              exists batch,
                In (Ok batch) dataloader
                /\ conversations
                   = create_video_summary_conversations batch prompt)
      (requests_to (model eng)
         (fst (summarize_all w eng params prompt idx dataloader video_data))).
Proof.
  induction dataloader as [|next rest IH]; intros idx video_data.
  - constructor.
  - simpl summarize_all. destruct next as [batch|e]; simpl; [|constructor].
    assert (Hhere : exists b,
               (Ok batch = Ok b \/ In (Ok b) rest)
               /\ create_video_summary_conversations batch prompt
                  = create_video_summary_conversations b prompt).
    { exists batch. split; [now left | reflexivity]. }
    assert (Hrest : forall l,
               Forall (fun conversations =>
                         exists b, In (Ok b) rest
                                   /\ conversations
                                      = create_video_summary_conversations
                                          b prompt) l ->
               Forall (fun conversations =>
                         exists b, (Ok batch = Ok b \/ In (Ok b) rest)
                                   /\ conversations
                                      = create_video_summary_conversations
                                          b prompt) l).
    { intros l. apply Forall_impl. intros c (b & Hb & Hc).
      exists b. split; [now right | exact Hc]. }
    destruct (chat w eng params idx _) as [video_summaries|e]; simpl.
    2:{ rewrite String.eqb_refl. constructor; [exact Hhere | constructor]. }
    destruct (rmap first_text video_summaries) as [summaries|e]; simpl.
    2:{ rewrite String.eqb_refl. constructor; [exact Hhere | constructor]. }
    match goal with
    | |- context [summarize_all ?a ?b ?c ?d ?e ?f ?g] =>
        specialize (IH e g); destruct (summarize_all a b c d e f g) as [t r]
    end.
    simpl in *. rewrite String.eqb_refl.
    constructor; [exact Hhere | now apply Hrest].
Qed.

Lemma stage2_no_summary_request cfg (t : list event) :
  Forall (is_stage2 (prompt_gen_engine cfg)) t ->
  requests_to "openbmb/MiniCPM-V-2_6" t = [].
Proof.
  intros H. apply requests_to_none. revert H. apply Forall_impl.
  intros e [(i & c & ->)|(item & ->)] eng idx c' Heq; [|discriminate].
  inversion Heq; subst. simpl. discriminate.
Qed.

(** The requests a run sends to the summary engine are those of its
    stage 1. *)
Lemma main_summary_requests_started w cfg dataloader :
  In EvSubmit (fst (main w cfg)) ->
  prepare_dataloader w (num_data_workers cfg) (batch_size cfg)
  = Ok dataloader ->
  requests_to "openbmb/MiniCPM-V-2_6" (fst (main w cfg))
  = requests_to "openbmb/MiniCPM-V-2_6"
      (fst (summarize_all w (summary_engine cfg)
              {| max_tokens := max_summary_tokens cfg |}
              (video_summary_prompt cfg) 0 dataloader [])).
Proof.
  intros Hin Hd.
  destruct (submitted_run w cfg Hin) as (HL & _ & Ha & Hm).
  pose proof (@main_started w cfg dataloader HL Hd Ha Hm) as Hmain.
  set (st := summarize_all w (summary_engine cfg)
               {| max_tokens := max_summary_tokens cfg |}
               (video_summary_prompt cfg) 0 dataloader []) in *.
  destruct st as [stage1 [video_data|e]]; simpl in Hmain; simpl fst.
  2:{ rewrite Hmain. simpl. rewrite requests_to_app. simpl.
      now rewrite app_nil_r. }
  destruct (gc_collect w) as [[]|e].
  2:{ rewrite Hmain. simpl. rewrite requests_to_app. simpl.
      now rewrite app_nil_r. }
  destruct (empty_cache w) as [[]|e].
  2:{ rewrite Hmain. simpl. rewrite requests_to_app. simpl.
      now rewrite app_nil_r. }
  destruct (LLM w (prompt_gen_engine cfg)) as [[]|e].
  2:{ rewrite Hmain. simpl. rewrite requests_to_app. simpl.
      now rewrite app_nil_r. }
  rewrite Hmain. simpl. rewrite requests_to_app. simpl.
  rewrite requests_to_app.
  rewrite (@stage2_no_summary_request cfg _
             (generate_all_trace w (prompt_gen_engine cfg)
                {| max_tokens := max_prompt_gen_tokens cfg |}
                (prompt_gen_prompt cfg) video_data 0)).
  simpl.
  destruct (snd (generate_all _ _ _ _ _ _)); simpl; now rewrite app_nil_r.
Qed.

Lemma main_summary_requests w cfg :
  requests_to "openbmb/MiniCPM-V-2_6" (fst (main w cfg)) = []
  \/ exists dataloader,
       prepare_dataloader w (num_data_workers cfg) (batch_size cfg)
       = Ok dataloader
       /\ requests_to "openbmb/MiniCPM-V-2_6" (fst (main w cfg))
          = requests_to "openbmb/MiniCPM-V-2_6"
              (fst (summarize_all w (summary_engine cfg)
                      {| max_tokens := max_summary_tokens cfg |}
                      (video_summary_prompt cfg) 0 dataloader [])).
Proof.
  destruct (main_shape w cfg) as [[Ht _]|[[Ht _]|(body & _ & Ht)]].
  - left. rewrite Ht. reflexivity.
  - left. rewrite Ht. reflexivity.
  - assert (Hin : In EvSubmit (fst (main w cfg))).
    { destruct Ht as [[Ht _]|[Ht _]]; rewrite Ht; simpl; auto. }
    destruct (submitted_run w cfg Hin) as (_ & (dataloader & Hd) & _).
    right. exists dataloader. split; [exact Hd|].
    now apply main_summary_requests_started.
Qed.

Lemma rmap_id_ok {A} (chunk : list (result A)) (l : list A) :
  rmap (fun sample => sample) chunk = Ok l -> chunk = map Ok l.
Proof.
  revert l. induction chunk as [|x chunk IH]; intros l H; simpl in H.
  - inversion H. reflexivity.
  - destruct x as [a|e]; simpl in H; [|discriminate].
    destruct (rmap _ chunk) as [l'|e]; simpl in H; [|discriminate].
    inversion H; subst. simpl. now rewrite (IH l').
Qed.

Lemma list_sum_bound (l : list nat) (k : nat) :
  Forall (fun n => n <= k) l -> list_sum l <= List.length l * k.
Proof.
  induction 1 as [|n l Hn _ IH]; simpl; lia.
Qed.

Lemma images_in_summary prompt (batch : Batch) :
  map images_of (create_video_summary_conversations batch prompt)
  = map (@List.length string) (videos batch).
Proof.
  rewrite create_video_summary_conversations_map.
  rewrite map_map. apply map_ext. intros v.
  apply images_of_summary_conversation.
Qed.

(** A batch of the loader is the collation of a chunk of samples of
    the data set, no longer than the batch size. *)
Lemma loader_batch w dataset workers size dataloader batch :
  VideoDataset w = Ok dataset ->
  prepare_dataloader w workers size = Ok dataloader ->
  In (Ok batch) dataloader ->
  (0 < size)%Z
  /\ exists samples,
       batch = collate_fn samples
       /\ 1 <= List.length samples <= Z.to_nat size
       /\ forall sample, In sample samples -> In (Ok sample) dataset.
Proof.
  intros Hd Hl Hin. unfold prepare_dataloader in Hl. rewrite Hd in Hl.
  simpl in Hl.
  destruct (Z.leb_spec workers 0); [discriminate|].
  destruct (Z.leb_spec size 0); [discriminate|].
  split; [lia|].
  inversion Hl; subst dataloader. clear Hl.
  apply in_map_iff in Hin. destruct Hin as (chunk & Hf & Hc).
  unfold fetch in Hf.
  destruct (rmap (fun sample => sample) chunk) as [samples|e] eqn:Hr;
    simpl in Hf; [|discriminate].
  inversion Hf; subst batch. apply rmap_id_ok in Hr.
  exists samples. split; [reflexivity|]. split.
  - pose proof (@batch_sampler_sizes _ (Z.to_nat size) dataset) as Hs.
    specialize (Hs ltac:(lia) [] ltac:(simpl; lia)).
    rewrite Forall_forall in Hs. specialize (Hs chunk Hc).
    rewrite Hr, length_map in Hs. exact Hs.
  - intros sample Hs.
    pose proof (batch_sampler_concat (Z.to_nat size) dataset []) as Hcat.
    simpl in Hcat. rewrite <- Hcat. apply in_concat.
    exists chunk. split; [exact Hc|]. rewrite Hr. now apply in_map.
Qed.

End ImageBudget.

(** X10: when no sample of the data set has more than [max_num_frames]
    frames, every request of a run to the summary engine fits the limit
    the engine was loaded with: it holds at most [batch_size]
    conversations, each with at most [max_num_frames] images, and at
    most [batch_size * max_num_frames] images in all, which is the
    engine's [limit_mm_per_prompt]. *)
Theorem summary_requests_fit_the_image_limit
    (w : World) (cfg : Config) (dataset : list (result Sample)) :
  VideoDataset w = Ok dataset ->
  (forall sample,
      In (Ok sample) dataset ->
      (Z.of_nat (List.length (video sample)) <= max_num_frames cfg)%Z) ->
  limit_mm_per_prompt (summary_engine cfg)
  = Some (batch_size cfg * max_num_frames cfg)%Z
  /\ Forall
       (fun conversations =>
          (Z.of_nat (List.length conversations) <= batch_size cfg)%Z
          /\ Forall (fun c => (Z.of_nat (images_of c) <= max_num_frames cfg)%Z)
               conversations
          /\ (Z.of_nat (images_in conversations)
              <= batch_size cfg * max_num_frames cfg)%Z)
       (requests_to "openbmb/MiniCPM-V-2_6" (fst (main w cfg))).
Proof.
  intros Hd Hframes. split; [reflexivity|].
  destruct (main_summary_requests w cfg) as [Hnone|(dataloader & Hl & Hreq)].
  { rewrite Hnone. constructor. }
  rewrite Hreq.
  pose proof (summarize_all_requests w (summary_engine cfg)
                {| max_tokens := max_summary_tokens cfg |}
                (video_summary_prompt cfg) dataloader 0 []) as Hall.
  simpl model in Hall. revert Hall. apply Forall_impl.
  intros conversations (batch & Hin & ->).
  destruct (@loader_batch w dataset _ _ dataloader batch Hd Hl Hin)
    as (Hsize & samples & -> & Hlen & Hsub).
  assert (Hk : Forall (fun n => n <= Z.to_nat (max_num_frames cfg))
                 (map (@List.length string) (map video samples))).
  { rewrite map_map. apply Forall_forall. intros n Hn.
    apply in_map_iff in Hn. destruct Hn as (sample & <- & Hs).
    specialize (Hframes sample (Hsub sample Hs)). lia. }
  assert (Hpos : (0 <= max_num_frames cfg)%Z).
  { destruct samples as [|sample rest]; [simpl in Hlen; lia|].
    specialize (Hframes sample (Hsub sample (or_introl eq_refl))). lia. }
  split; [|split].
  - rewrite create_video_summary_conversations_map. simpl.
    rewrite !length_map. lia.
  - apply Forall_forall. intros c Hc.
    assert (Hi : In (images_of c)
                   (map images_of
                      (create_video_summary_conversations
                         (collate_fn samples) (video_summary_prompt cfg)))).
    { now apply in_map. }
    rewrite images_in_summary in Hi. simpl in Hi.
    rewrite Forall_forall in Hk. specialize (Hk _ Hi). lia.
  - unfold images_in. rewrite images_in_summary. simpl.
    pose proof (list_sum_bound Hk) as Hsum.
    rewrite !length_map in Hsum. nia.
Qed.

(** The three videos of [demo_world] have two frames each, and the
    default limit is eight frames a video. *)
Lemma summary_requests_fit_the_image_limit_witness :
  Forall
    (fun conversations => (Z.of_nat (images_in conversations) <= 2 * 8)%Z)
    (requests_to "openbmb/MiniCPM-V-2_6" (fst (main demo_world demo_config))).
Proof.
  destruct (@summary_requests_fit_the_image_limit demo_world demo_config
              [ Ok (demo_sample "a.mp4"); Ok (demo_sample "b.mp4");
                Ok (demo_sample "c.mp4") ])
    as [_ H].
  - reflexivity.
  - intros sample [H|[H|[H|[]]]]; inversion H; simpl; lia.
  - revert H. apply Forall_impl. intros c (_ & _ & Hc). exact Hc.
Defined.

(** ** Whole runs: no video, a template that cannot be formatted, engines
    that answer as they like *)

Section WholeRuns.

(** When stage 1 succeeds it has sent one request per batch. *)
Lemma summarize_all_request_count w eng params prompt :
  forall dataloader idx video_data video_data',
    snd (summarize_all w eng params prompt idx dataloader video_data)
    = Ok video_data' ->
    List.length
      (requests_to (model eng)
         (fst (summarize_all w eng params prompt idx dataloader video_data)))
    = List.length dataloader.
Proof.
  induction dataloader as [|next rest IH];
    intros idx video_data video_data' H; [reflexivity|].
  simpl summarize_all in *. destruct next as [batch|e]; simpl in *;
    [|discriminate].
  destruct (chat w eng params idx _) as [video_summaries|e]; simpl in *;
    [|discriminate].
  destruct (rmap first_text video_summaries) as [summaries|e]; simpl in *;
    [|discriminate].
  match type of H with
  | context [summarize_all ?a ?b ?c ?d ?e ?f ?g] =>
      specialize (IH e g video_data');
      destruct (summarize_all a b c d e f g) as [t r]
  end.
  simpl in *. rewrite String.eqb_refl. simpl. now rewrite (IH H).
Qed.

Lemma rmap_first_text_output (l : list string) :
  rmap first_text (map text_output l) = Ok l.
Proof. induction l as [|t l IH]; simpl; [reflexivity | now rewrite IH]. Qed.

Variable samples : list Sample.
Variables summary_texts prompt_texts : list conversation -> list string.

Let BW : World := batch_world samples summary_texts prompt_texts.

Lemma summarize_all_batch cfg prompt chunks :
  forall idx video_data,
    snd (summarize_all BW (summary_engine cfg)
           {| max_tokens := max_summary_tokens cfg |} prompt idx
           (map (fun chunk => Ok (collate_fn chunk)) chunks) video_data)
    = Ok (video_data
          ++ map (fun chunk =>
                    {| item_filename := map filename chunk;
                       summary :=
                         summary_texts
                           (map (fun sample =>
                                   summary_conversation
                                     (default_prompt SUMMARY_USER_PROMPT prompt)
                                     (video sample))
                              chunk) |})
              chunks).
Proof.
  induction chunks as [|chunk chunks IH]; intros idx video_data.
  - simpl. now rewrite app_nil_r.
  - simpl. rewrite rmap_first_text_output.
    match goal with
    | |- context [summarize_all ?a ?b ?c ?d ?e ?f ?g] =>
        specialize (IH e g); destruct (summarize_all a b c d e f g) as [t r]
    end.
    simpl in *. rewrite IH, <- app_assoc. simpl.
    rewrite create_video_summary_conversations_map. simpl.
    now rewrite !map_map.
Qed.

Lemma generate_all_batch cfg (video_data : list VideoData) :
  forall idx,
    let stage2 :=
      generate_all BW (prompt_gen_engine cfg)
        {| max_tokens := max_prompt_gen_tokens cfg |} None idx video_data in
    snd stage2 = Ok tt
    /\ puts_of (fst stage2)
       = map (fun batch =>
                Some (item_filename batch,
                      map strip_quotes
                        (prompt_texts
                           (map (fun s =>
                                   prompt_generation_conversation
                                     (prompt_gen_text s))
                              (summary batch)))))
           video_data.
Proof.
  induction video_data as [|batch rest IH]; intros idx.
  - simpl. now split.
  - cbv zeta. cbn [generate_all].
    rewrite create_prompt_generation_conversations_default.
    simpl. rewrite rmap_first_text_output.
    specialize (IH (S idx)). cbv zeta in IH.
    match goal with
    | |- context [generate_all ?a ?b ?c ?d ?e ?f] =>
        destruct (generate_all a b c d e f) as [t r]
    end.
    simpl in *. destruct IH as [Hr Hp]. split; [exact Hr|].
    now rewrite Hp.
Qed.

End WholeRuns.

(** X11: with an empty data set and no failing call, a run still loads
    the summary engine, tears it down and loads the stage-2 engine; it
    sends no request, puts the sentinel alone and returns normally,
    whatever the two prompt templates are, and leaves the output files
    as they were. *)
Theorem empty_data_set_run
    (w : World) (cfg : Config) (fs0 : Files) :
  VideoDataset w = Ok [] ->
  LLM w (summary_engine cfg) = Ok tt ->
  LLM w (prompt_gen_engine cfg) = Ok tt ->
  makedirs w = Ok tt -> gc_collect w = Ok tt -> empty_cache w = Ok tt ->
  (0 < num_data_workers cfg)%Z -> (0 < batch_size cfg)%Z ->
  (0 < num_artifact_workers cfg)%Z ->
  main w cfg
  = ([ EvLLM (summary_engine cfg); EvQueue 0; EvSubmit;
       EvDel (summary_engine cfg); EvGcCollect; EvEmptyCache;
       EvLLM (prompt_gen_engine cfg);
       EvPut None; EvShutdown; EvResult ],
     Ok tt)
  /\ forall s,
      reachable (initial (fst (main w cfg)) fs0) s -> main_todo s = [] ->
      writer s = Returned /\ files s = fs0.
Proof.
  intros Hd HL HL2 Hm Hg He Hw Hb Ha.
  assert (Hl : prepare_dataloader w (num_data_workers cfg) (batch_size cfg)
               = Ok []).
  { unfold prepare_dataloader. rewrite Hd. simpl.
    destruct (Z.leb_spec (num_data_workers cfg) 0); [lia|].
    destruct (Z.leb_spec (batch_size cfg) 0); [lia | reflexivity]. }
  pose proof (@main_started w cfg [] HL Hl Ha Hm) as Hmain.
  simpl in Hmain. rewrite Hg, He, HL2 in Hmain.
  split; [exact Hmain|].
  intros s Hr Hdone. rewrite Hmain in Hr. simpl in Hr.
  assert (Hj : conforms NoQueue
                 [ EvLLM (summary_engine cfg); EvQueue 0; EvSubmit;
                   EvDel (summary_engine cfg); EvGcCollect; EvEmptyCache;
                   EvLLM (prompt_gen_engine cfg);
                   EvPut None; EvShutdown; EvResult ]
               = Some Joined) by reflexivity.
  destruct (finished_state Hj Hr Hdone) as (Hwr & _ & Hf).
  split; [exact Hwr | exact Hf].
Qed.

(** [empty_world] has no video; a template that cannot be formatted
    goes unnoticed. *)
Lemma empty_data_set_run_witness :
  snd (main empty_world (with_template demo_config bad_template)) = Ok tt.
Proof.
  destruct (@empty_data_set_run empty_world
              (with_template demo_config bad_template) no_files
              eq_refl eq_refl eq_refl eq_refl eq_refl eq_refl)
    as [H _]; [simpl; lia | simpl; lia | simpl; lia |].
  now rewrite H.
Defined.



(** X13: [main] takes the answers of the engines as they come.  In a
    world where nothing fails, each engine answering a request with any
    number of texts, and with the default prompt-generation template,
    the run returns normally; the item of a batch holds the filenames of
    the batch and one cleaned caption per text of the prompt engine,
    which was asked one conversation per text of the summary engine.
    The numbers of filenames, summaries and captions are never
    compared. *)
Theorem main_takes_the_answers_as_they_come
    (samples : list Sample)
    (summary_texts prompt_texts : list conversation -> list string)
    (cfg : Config) :
  usable cfg ->
  let W := batch_world samples summary_texts prompt_texts in
  snd (main W cfg) = Ok tt
  /\ puts_of (fst (main W cfg))
     = map (fun chunk =>
              Some (batch_item summary_texts prompt_texts
                      (video_summary_prompt cfg) chunk))
         (batch_sampler (Z.to_nat (batch_size cfg)) samples [])
       ++ [None].
Proof.
  intros (Hw & Hb & Ha & Hp) W.
  set (chunks := batch_sampler (Z.to_nat (batch_size cfg)) samples []).
  assert (Hl : prepare_dataloader W (num_data_workers cfg) (batch_size cfg)
               = Ok (map (fun chunk => Ok (collate_fn chunk)) chunks)).
  { apply prepare_dataloader_ok; auto. }
  pose proof (@main_started W cfg _ eq_refl Hl Ha eq_refl) as Hmain.
  pose proof (summarize_all_batch samples summary_texts prompt_texts cfg
                (video_summary_prompt cfg) chunks 0 []) as H1.
  fold W in H1.
  pose proof (summarize_all_trace W (summary_engine cfg)
                {| max_tokens := max_summary_tokens cfg |}
                (video_summary_prompt cfg)
                (map (fun chunk => Ok (collate_fn chunk)) chunks) 0 []) as Htr.
  set (st := summarize_all W (summary_engine cfg)
               {| max_tokens := max_summary_tokens cfg |}
               (video_summary_prompt cfg) 0
               (map (fun chunk => Ok (collate_fn chunk)) chunks) []) in *.
  destruct st as [stage1 r1]. simpl in H1, Htr, Hmain. subst r1.
  rewrite Hp in Hmain.
  match type of Hmain with
  | context [generate_all W ?b ?c None 0 ?vd] =>
      pose proof (generate_all_batch samples summary_texts prompt_texts cfg
                    vd 0) as H2
  end.
  cbv zeta in H2. fold W in H2.
  match type of H2 with
  | context [generate_all ?a ?b ?c ?d ?e ?f] =>
      set (st2 := generate_all a b c d e f) in *
  end.
  destruct st2 as [stage2 r2]. simpl in H2, Hmain. destruct H2 as [-> H2].
  rewrite Hmain. simpl. split; [reflexivity|].
  rewrite puts_of_app, (puts_of_quiet (chat_quiet Htr)). simpl.
  rewrite puts_of_app, H2. simpl. rewrite map_map. reflexivity.
Qed.

(** In [one_answer_world] the prompt engine answers two conversations
    with one text: the item holds two filenames and one caption. *)
Lemma main_takes_the_answers_as_they_come_witness :
  snd (main one_answer_world demo_config) = Ok tt
  /\ puts_of (fst (main one_answer_world demo_config))
     = [ Some ([ "a.mp4"; "b.mp4" ], [ "A cat." ]); None ].
Proof.
  apply (@main_takes_the_answers_as_they_come
           [ demo_sample "a.mp4"; demo_sample "b.mp4" ]
           (map (fun _ => "A cat sits.")) (fun _ => [ quoted_cat ])
           demo_config).
  unfold usable. simpl. repeat split; lia.
Defined.

(** ** Output only after the whole of stage 1 *)

Section OutputAfterStage1.

Lemma in_puts_of (item : option payload) (t : list event) :
  In (EvPut item) t -> In item (puts_of t).
Proof.
  induction t as [|e t IH]; intros Hin; [contradiction|].
  destruct Hin as [->|Hin]; [now left|].
  destruct e; simpl; auto.
Qed.

End OutputAfterStage1.

(** X14: a run puts a real item on the queue only after stage 1 has
    succeeded on the whole data set: when any real item is put, every
    batch of the loader could be read and has been summarized, with one
    request and one collected item each; the collection, the emptying of
    the cache and the load of the stage-2 engine have succeeded too. *)
Theorem items_only_after_all_of_stage1
    (w : World) (cfg : Config) (item : payload) :
  In (EvPut (Some item)) (fst (main w cfg)) ->
  exists dataloader video_data,
    prepare_dataloader w (num_data_workers cfg) (batch_size cfg)
    = Ok dataloader
    /\ Forall (fun next => is_ok next = true) dataloader
    /\ snd (summarize_all w (summary_engine cfg)
              {| max_tokens := max_summary_tokens cfg |}
              (video_summary_prompt cfg) 0 dataloader [])
       = Ok video_data
    /\ List.length video_data = List.length dataloader
    /\ List.length
         (requests_to "openbmb/MiniCPM-V-2_6" (fst (main w cfg)))
       = List.length dataloader
    /\ gc_collect w = Ok tt /\ empty_cache w = Ok tt
    /\ LLM w (prompt_gen_engine cfg) = Ok tt.
Proof.
  intros Hput. apply in_puts_of in Hput.
  destruct (main_conforms w cfg) as [(_ & _ & Hp & _)|(Hin & _)].
  { rewrite Hp in Hput. contradiction. }
  destruct (submitted_run w cfg Hin) as (HL & (dataloader & Hd) & Ha & Hm).
  destruct (main_puts w cfg Hin Hd) as [[Hp _]|(video_data & Hs & Hp & _)].
  { rewrite Hp in Hput. simpl in Hput. intuition discriminate. }
  exists dataloader, video_data.
  destruct (@summarize_all_ok _ _ _ _ _ _ _ _ Hs) as (Hall & Hnames & Hlen).
  split; [exact Hd|]. split; [exact Hall|]. split; [exact Hs|].
  split.
  { rewrite <- (length_map item_filename), Hnames. simpl.
    now rewrite length_map. }
  split.
  { rewrite (main_summary_requests_started w cfg Hin Hd).
    exact (@summarize_all_request_count _ _ _ _ _ _ _ _ Hs). }
  pose proof (@main_started w cfg dataloader HL Hd Ha Hm) as Hmain.
  cbv beta zeta in Hmain. rewrite Hs in Hmain.
  destruct (gc_collect w) as [[]|e] eqn:Hg.
  2:{ exfalso. rewrite Hmain in Hput. simpl in Hput.
      rewrite puts_of_app in Hput.
      rewrite (puts_of_quiet
                 (chat_quiet (summarize_all_trace w (summary_engine cfg)
                                {| max_tokens := max_summary_tokens cfg |}
                                (video_summary_prompt cfg) dataloader 0 [])))
        in Hput.
      simpl in Hput. intuition discriminate. }
  destruct (empty_cache w) as [[]|e] eqn:He.
  2:{ exfalso. rewrite Hmain in Hput. simpl in Hput.
      rewrite puts_of_app in Hput.
      rewrite (puts_of_quiet
                 (chat_quiet (summarize_all_trace w (summary_engine cfg)
                                {| max_tokens := max_summary_tokens cfg |}
                                (video_summary_prompt cfg) dataloader 0 [])))
        in Hput.
      simpl in Hput. intuition discriminate. }
  destruct (LLM w (prompt_gen_engine cfg)) as [[]|e] eqn:HL2.
  2:{ exfalso. rewrite Hmain in Hput. simpl in Hput.
      rewrite puts_of_app in Hput.
      rewrite (puts_of_quiet
                 (chat_quiet (summarize_all_trace w (summary_engine cfg)
                                {| max_tokens := max_summary_tokens cfg |}
                                (video_summary_prompt cfg) dataloader 0 [])))
        in Hput.
      simpl in Hput. intuition discriminate. }
  now repeat split.
Qed.

(** The run of [demo_world] puts the item of its first batch. *)
Lemma items_only_after_all_of_stage1_witness :
  List.length
    (requests_to "openbmb/MiniCPM-V-2_6" (fst (main demo_world demo_config)))
  = 2.
Proof.
  destruct (@items_only_after_all_of_stage1 demo_world demo_config
              ([ "a.mp4"; "b.mp4" ], [ "A cat."; "A cat." ]))
    as (dataloader & video_data & Hd & _ & _ & _ & Hreq & _ & _ & _).
  - vm_compute. tauto.
  - rewrite Hreq. inversion Hd. reflexivity.
Defined.

(** ** One engine handle at a time *)

Section EngineHandles.

Variable cfg : Config.

(** The handles that may be bound at any moment of a run. *)
Let one_handle (live : list engine) : Prop :=
  live = [] \/ live = [summary_engine cfg] \/ live = [prompt_gen_engine cfg].

Lemma prefixes_app (a b : list event) (live : list engine) :
  (forall pre post, a = pre ++ post -> one_handle (live_engines pre live)) ->
  (forall pre post, b = pre ++ post ->
     one_handle (live_engines pre (live_engines a live))) ->
  forall pre post, a ++ b = pre ++ post ->
    one_handle (live_engines pre live).
Proof.
  intros Ha Hb pre post H.
  apply app_eq_app in H. destruct H as (l & [[Hp Hq]|[Hp Hq]]).
  - exact (Ha _ _ Hp).
  - rewrite Hp, live_engines_app. exact (Hb _ _ Hq).
Qed.

Lemma prefixes_keep (t : list event) (live : list engine) :
  Forall (fun e => binds_engine e = false) t ->
  one_handle live ->
  forall pre post, t = pre ++ post -> one_handle (live_engines pre live).
Proof.
  intros Hk HP pre post ->. apply Forall_app in Hk as [Hk _].
  now rewrite (live_engines_keep _ Hk).
Qed.

Lemma prefix_firstn (A : Type) (pre post : list A) :
  pre = firstn (List.length pre) (pre ++ post).
Proof.
  induction pre as [|x pre IH]; simpl; [reflexivity|]. now f_equal.
Qed.

Lemma live_in_barrier (m : nat) :
  one_handle (live_engines (firstn m (barrier cfg)) [summary_engine cfg]).
Proof.
  unfold one_handle, barrier.
  destruct m as [|[|[|[|m]]]]; cbn [firstn live_engines];
    try rewrite remove_cons; cbn [remove app]; auto.
  rewrite firstn_nil. cbn [live_engines]. auto.
Qed.

Lemma live_after_barrier :
  live_engines (barrier cfg) [summary_engine cfg] = [prompt_gen_engine cfg].
Proof.
  unfold barrier. cbn [live_engines]. now rewrite remove_cons.
Qed.

Lemma barrier_prefixes (n : nat) (pre post : list event) :
  firstn n (barrier cfg) = pre ++ post ->
  one_handle (live_engines pre [summary_engine cfg]).
Proof.
  intros H. rewrite (prefix_firstn pre post), <- H, firstn_firstn.
  apply live_in_barrier.
Qed.

Lemma body_prefixes (body : list event) :
  body_shape cfg body ->
  forall pre post, body = pre ++ post ->
    one_handle (live_engines pre [summary_engine cfg]).
Proof.
  intros (stage1 & H1 & [(n & _ & ->)|(stage2 & H2 & ->)]).
  - apply prefixes_app.
    + apply prefixes_keep; [exact (chat_keeps_engines H1)|].
      right; now left.
    + rewrite (live_engines_keep _ (chat_keeps_engines H1)).
      apply barrier_prefixes.
  - apply prefixes_app.
    + apply prefixes_keep; [exact (chat_keeps_engines H1)|].
      right; now left.
    + rewrite (live_engines_keep _ (chat_keeps_engines H1)).
      apply prefixes_app.
      * intros pre post H. apply (@barrier_prefixes 4 pre post).
        exact H.
      * rewrite live_after_barrier.
        apply prefixes_keep; [exact (stage2_keeps_engines H2)|].
        right; now right.
Qed.

Lemma run_prefixes (body tail : list event) :
  body_shape cfg body ->
  Forall (fun e => binds_engine e = false) tail ->
  forall pre post,
    [EvLLM (summary_engine cfg); EvQueue 0; EvSubmit] ++ body ++ tail
    = pre ++ post ->
    one_handle (live_engines pre []).
Proof.
  intros Hb Ht. apply prefixes_app.
  - intros pre post H.
    destruct pre as [|e1 [|e2 [|e3 [|e4 pre]]]]; inversion H; subst;
      [left|right; left..]; reflexivity.
  - change (live_engines [EvLLM (summary_engine cfg); EvQueue 0; EvSubmit] [])
      with [summary_engine cfg].
    apply prefixes_app.
    + now apply body_prefixes.
    + apply prefixes_keep; [exact Ht|].
      apply (@body_prefixes body Hb body []). now rewrite app_nil_r.
Qed.

End EngineHandles.

(** X15: at no moment of a run are two engine handles bound: after any
    prefix of the events of [main], whatever the calls answer, the bound
    handles are none, the summary engine alone, or the prompt-generation
    engine alone. *)
Theorem never_two_engines_bound
    (w : World) (cfg : Config) (pre post : list event) :
  fst (main w cfg) = pre ++ post ->
  live_engines pre [] = []
  \/ live_engines pre [] = [summary_engine cfg]
  \/ live_engines pre [] = [prompt_gen_engine cfg].
Proof.
  destruct (main_shape w cfg) as [[Ht _]|[[Ht _]|(body & Hb & Ht)]].
  - rewrite Ht. intros H.
    destruct pre as [|e1 [|e2 pre]]; inversion H; subst;
      [left|right; left]; reflexivity.
  - rewrite Ht. intros H.
    destruct pre as [|e1 [|e2 [|e3 pre]]]; inversion H; subst;
      [left|right; left..]; reflexivity.
  - destruct Ht as [[Ht _]|[Ht _]]; rewrite Ht;
      apply (@run_prefixes cfg body _ Hb); repeat constructor.
Qed.

(** In the run of [demo_world] the summary engine alone is bound after
    the first five events. *)
Lemma never_two_engines_bound_witness :
  live_engines (firstn 5 (fst (main demo_world demo_config))) [] = []
  \/ live_engines (firstn 5 (fst (main demo_world demo_config))) []
     = [summary_engine demo_config]
  \/ live_engines (firstn 5 (fst (main demo_world demo_config))) []
     = [prompt_gen_engine demo_config].
Proof.
  apply (@never_two_engines_bound demo_world demo_config
           (firstn 5 (fst (main demo_world demo_config)))
           (skipn 5 (fst (main demo_world demo_config)))).
  vm_compute. reflexivity.
Defined.
